(** * Project planner over a flat key-value store (src/src/index.ts)

    A shallow embedding of the persistence core of the [MyMCP] agent: the
    key schema, the index lists, the Project and Todo records, the tool
    handlers registered in [init], and the allow-list gate in front of them.

    The store is Workers KV: string keys, string values.  Every value the
    handlers write is [JSON.stringify] of a Project, of a Todo or of an array
    of ids, and every value they read goes through [JSON.parse]; a stored
    string is therefore represented by the value it is the JSON text of.
    Such a text is never the empty string, so the tests [if (!data)] and
    [data ? ... : ...] are decided by the key being absent or present.  The
    store is a finite map: a [get] returns what the last [put] under the key
    stored, and each call runs to completion before the next one starts. *)

From stdpp Require Import gmap strings list.

(** ** Data model *)

Inductive Status := pending | in_progress | completed.
Inductive Priority := low | medium | high.

#[global] Instance Status_eq_dec : EqDecision Status.
Proof. solve_decision. Defined.
#[global] Instance Priority_eq_dec : EqDecision Priority.
Proof. solve_decision. Defined.

(** [interface Project] *)
Record Project := mkProject {
  p_id : string;
  p_name : string;
  p_description : string;
  p_createdAt : string;
  p_updatedAt : string;
}.

(** [interface Todo] *)
Record Todo := mkTodo {
  t_id : string;
  t_projectId : string;
  t_title : string;
  t_description : string;
  t_status : Status;
  t_priority : Priority;
  t_createdAt : string;
  t_updatedAt : string;
}.

(** What a stored JSON text denotes. *)
Inductive value :=
| VProject (p : Project)
| VTodo (t : Todo)
| VIds (ids : list string).

Abbreviation KVNamespace := (gmap string value).

(** ** Key schema

    The four template literals, and the one key that the source writes
    between plain double quotes: there [${this.props!.login}] is not
    interpolated, the characters themselves are the key. *)

Definition projectListKey (login : string) : string :=
  "project:user-" +:+ login +:+ ":list".

Definition projectListKeyQuoted : string :=
  "project:user-${this.props!.login}:list".

Definition projectKey (login projectId : string) : string :=
  "project:" +:+ projectId +:+ ":user-" +:+ login.

Definition todoListKey (login projectId : string) : string :=
  "project:" +:+ projectId +:+ ":user-" +:+ login +:+ ":todos".

Definition todoKey (login todoId : string) : string :=
  "todo:user-" +:+ login +:+ ":" +:+ todoId.

(** ** Effects: a state, error and trace monad over the store

    A handler is a sequence of awaited [KV.get], [KV.put] and [KV.delete]
    calls; it ends with a value or with a thrown [Error].  Nothing is rolled
    back when it throws.  The trace lists the store calls in program order. *)

Inductive event :=
| EGet (key : string)
| EPut (key : string) (v : value)
| EDelete (key : string).

Inductive res (A : Type) :=
| Ok (a : A)
| Throw (message : string).
Arguments Ok {A} a.
Arguments Throw {A} message.

Definition M (A : Type) : Type :=
  KVNamespace → res A * KVNamespace * list event.

Definition ret {A} (a : A) : M A := λ σ, (Ok a, σ, []).

Definition bind {A B} (m : M A) (f : A → M B) : M B := λ σ,
  match m σ with
  | (Ok a, σ1, tr1) =>
      match f a σ1 with
      | (r, σ2, tr2) => (r, σ2, tr1 ++ tr2)
      end
  | (Throw e, σ1, tr1) => (Throw e, σ1, tr1)
  end.

Definition throw {A} (message : string) : M A := λ σ, (Throw message, σ, []).

Definition KV_get (key : string) : M (option value) :=
  λ σ, (Ok (σ !! key), σ, [EGet key]).

Definition KV_put (key : string) (v : value) : M unit :=
  λ σ, (Ok tt, <[key := v]> σ, [EPut key v]).

Definition KV_delete (key : string) : M unit :=
  λ σ, (Ok tt, delete key σ, [EDelete key]).

Notation "'await' x ':=' m 'in' k" := (bind m (λ x, k))
  (at level 10, x name, m at level 100, k at level 200,
   format "'[v' 'await'  x  ':='  m  'in' '/' k ']'").
Notation "'await_' m 'in' k" := (bind m (λ _, k))
  (at level 10, m at level 100, k at level 200,
   format "'[v' 'await_'  m  'in' '/' k ']'").

Definition outcome {A} (x : res A * KVNamespace * list event) : res A := x.1.1.
Definition store_after {A} (x : res A * KVNamespace * list event) : KVNamespace := x.1.2.
Definition trace_of {A} (x : res A * KVNamespace * list event) : list event := x.2.

(** Keys written ([put] or [delete]) by a trace. *)
Definition written (e : event) : option string :=
  match e with
  | EGet _ => None
  | EPut k _ => Some k
  | EDelete k => Some k
  end.

Definition writes (tr : list event) : list string := omap written tr.

(** ** Reading stored values

    [JSON.parse(listData)] is used as an array at once ([push], [indexOf],
    [filter], [for ... of]); on anything else that use raises a TypeError.
    [JSON.parse(data)] of a record is cast to its interface without a
    check; the handlers only ever store a Project under a project key and a
    Todo under a todo key, and a value of another shape under such a key is
    outside the typed program: the embedding stops there with the same
    fault.  No run that starts from the empty store reaches it (lemma
    [never_malformed]). *)

Definition malformed : string := "TypeError".

Definition asIds (v : value) : M (list string) :=
  match v with VIds ids => ret ids | _ => throw malformed end.

Definition asProject (v : value) : M Project :=
  match v with VProject p => ret p | _ => throw malformed end.

Definition asTodo (v : value) : M Todo :=
  match v with VTodo t => ret t | _ => throw malformed end.

(** ** Array operations used on the index lists *)

(** [Array.prototype.indexOf]: position of the first element [===] to [x]. *)
Fixpoint indexOf (l : list string) (x : string) : option nat :=
  match l with
  | [] => None
  | y :: l' => if decide (y = x) then Some 0 else S <$> indexOf l' x
  end.

(** [Array.prototype.splice(start, deleteCount)] without inserted items,
    for [start] within the array. *)
Definition splice (start deleteCount : nat) (l : list string) : list string :=
  take start l ++ drop (start + deleteCount) l.

(** [const index = l.indexOf(x); if (index !== -1) l.splice(index, 1);] *)
Definition spliceOut (l : list string) (x : string) : list string :=
  match indexOf l x with
  | Some index => splice index 1 l
  | None => l
  end.

(** ** What a handler is given and what it answers *)

(** The values that [crypto.randomUUID()] and the first and the second
    [new Date().toISOString()] hand out during one call. *)
Record Ambient := mkAmbient {
  randomUUID : string;
  now1 : string;
  now2 : string;
}.

(** The text of the single content item of a normal response: a sentence,
    or [JSON.stringify(x, null, 2)] of the [x] shown. *)
Inductive payload :=
| PMessage (text : string)
| PProject (project : Project)
| PProjects (projects : list Project)
| PProjectTodos (project : Project) (todos : list Todo)
| PTodo (todo : Todo)
| PTodos (todos : list Todo).

(** The [status] argument of [list_todos]:
    [z.enum(["pending", "in_progress", "completed", "all"])]. *)
Inductive StatusFilter :=
| only (s : Status)
| all.

Definition projectNotFound (projectId : string) : string :=
  "Project with ID " +:+ projectId +:+ " not found".

Definition todoNotFound (todoId : string) : string :=
  "Todo with ID " +:+ todoId +:+ " not found".

Definition projectDeleted (projectId : string) : string :=
  "Project with ID " +:+ projectId +:+ " and all its todos deleted".

Definition todoDeleted (todoId : string) : string :=
  "Todo with ID " +:+ todoId +:+ " deleted".

(** ** Private helpers of [MyMCP] *)

Section Agent.
(** [this.props!.login] *)
Variable login : string.

Definition getProjectList : M (list string) :=
  await listData := KV_get (projectListKey login) in
  match listData with
  | Some v => asIds v
  | None => ret []
  end.

Definition getTodoList (projectId : string) : M (list string) :=
  await listData := KV_get (todoListKey login projectId) in
  match listData with
  | Some v => asIds v
  | None => ret []
  end.

(** The [for (const todoId of todoList)] loop, [todos] being the array
    pushed to. *)
Fixpoint getTodosByProject_loop (todoList : list string) (todos : list Todo)
  : M (list Todo) :=
  match todoList with
  | [] => ret todos
  | todoId :: rest =>
      await todoData := KV_get (todoKey login todoId) in
      match todoData with
      | Some v =>
          await todo := asTodo v in
          getTodosByProject_loop rest (todos ++ [todo])
      | None => getTodosByProject_loop rest todos
      end
  end.

Definition getTodosByProject (projectId : string) : M (list Todo) :=
  await todoList := getTodoList projectId in
  getTodosByProject_loop todoList [].

Definition deleteTodo (projectId todoId : string) : M unit :=
  await todoList := getTodoList projectId in
  KV_put (todoListKey login projectId) (VIds (spliceOut todoList todoId)).


(** ** The tool handlers registered in [init] *)

Definition createProject (amb : Ambient) (name : string)
  (description : option string) : M payload :=
  let projectId := randomUUID amb in
  let project :=
    {| p_id := projectId;
       p_name := name;
       p_description := default "" description;
       p_createdAt := now1 amb;
       p_updatedAt := now2 amb |} in
  await_ KV_put (projectKey login (p_id project)) (VProject project) in
  await projectList := getProjectList in
  await_ KV_put projectListKeyQuoted (VIds (projectList ++ [projectId])) in
  ret (PProject project).

Fixpoint get_project_list_loop (projectList : list string)
  (projects : list Project) : M (list Project) :=
  match projectList with
  | [] => ret projects
  | projectId :: rest =>
      await projectData := KV_get (projectKey login projectId) in
      match projectData with
      | Some v =>
          await project := asProject v in
          get_project_list_loop rest (projects ++ [project])
      | None => get_project_list_loop rest projects
      end
  end.

Definition get_project_list : M payload :=
  await projectList := getProjectList in
  await projects := get_project_list_loop projectList [] in
  ret (PProjects projects).

Definition get_project (projectId : string) : M payload :=
  await projectData := KV_get (projectKey login projectId) in
  match projectData with
  | None => ret (PMessage (projectNotFound projectId))
  | Some v =>
      await project := asProject v in
      await todos := getTodosByProject projectId in
      ret (PProjectTodos project todos)
  end.

(** [for (const todo of todos) await this.deleteTodo(projectId, todo.id)] *)
Fixpoint delete_project_loop (projectId : string) (todos : list Todo) : M unit :=
  match todos with
  | [] => ret tt
  | todo :: rest =>
      await_ deleteTodo projectId (t_id todo) in
      delete_project_loop projectId rest
  end.

Definition delete_project (projectId : string) : M payload :=
  await projectData := KV_get (projectKey login projectId) in
  match projectData with
  | None => ret (PMessage (projectNotFound projectId))
  | Some _ =>
      await todos := getTodosByProject projectId in
      await_ delete_project_loop projectId todos in
      await_ KV_delete (projectKey login projectId) in
      await projectList := getProjectList in
      await_ KV_put projectListKeyQuoted (VIds (spliceOut projectList projectId)) in
      ret (PMessage (projectDeleted projectId))
  end.

Definition create_todo (amb : Ambient) (projectId title : string)
  (description : option string) (priority : option Priority) : M payload :=
  await projectData := KV_get (projectKey login projectId) in
  match projectData with
  | None => ret (PMessage (projectNotFound projectId))
  | Some _ =>
      let todoId := randomUUID amb in
      let todo :=
        {| t_id := todoId;
           t_projectId := projectId;
           t_title := title;
           t_description := default "" description;
           t_priority := default medium priority;
           t_status := pending;
           t_createdAt := now1 amb;
           t_updatedAt := now2 amb |} in
      await_ KV_put (todoKey login todoId) (VTodo todo) in
      await todoList := getTodoList projectId in
      await_ KV_put (todoListKey login projectId) (VIds (todoList ++ [todoId])) in
      ret (PTodo todo)
  end.

Definition update_todo (amb : Ambient) (todoId title : string)
  (description : option string) (status : option Status)
  (priority : option Priority) : M payload :=
  await todoData := KV_get (todoKey login todoId) in
  match todoData with
  | None => ret (PMessage (todoNotFound todoId))
  | Some v =>
      await todo := asTodo v in
      let todo :=
        {| t_id := t_id todo;
           t_projectId := t_projectId todo;
           t_title := title;
           t_description := default (t_description todo) description;
           t_status := default (t_status todo) status;
           t_priority := default (t_priority todo) priority;
           t_createdAt := t_createdAt todo;
           t_updatedAt := now1 amb |} in
      await_ KV_put (todoKey login todoId) (VTodo todo) in
      ret (PTodo todo)
  end.

Definition delete_todo (todoId : string) : M payload :=
  await todoData := KV_get (todoKey login todoId) in
  match todoData with
  | None => throw (todoNotFound todoId)
  | Some v =>
      await todo := asTodo v in
      await todoList := getTodoList (t_projectId todo) in
      let updatedTodoList := filter (λ id, id ≠ todoId) todoList in
      await_ KV_put (todoListKey login (t_projectId todo)) (VIds updatedTodoList) in
      await_ KV_delete (todoKey login todoId) in
      ret (PMessage (todoDeleted todoId))
  end.

Definition get_todo (todoId : string) : M payload :=
  await todoData := KV_get (todoKey login todoId) in
  match todoData with
  | None => throw (todoNotFound todoId)
  | Some v =>
      await todo := asTodo v in
      ret (PTodo todo)
  end.

Definition list_todos (projectId : string) (status : option StatusFilter)
  : M payload :=
  await projectData := KV_get (projectKey login projectId) in
  match projectData with
  | None => throw (projectNotFound projectId)
  | Some _ =>
      await todos := getTodosByProject projectId in
      let todos :=
        match status with
        | Some (only s) => filter (λ todo, t_status todo = s) todos
        | Some all | None => todos
        end in
      ret (PTodos todos)
  end.

End Agent.

(** ** The gate and the dispatch

    [init] registers the project and todo tools only when
    [ALLOWED_USERNAMES.has(this.props!.login)]; for any other login they do
    not exist.  ([add], [userInfoOctokit] and [generateImage] never touch the
    store and are left out.)  Arguments are checked against the zod schema
    before the handler runs; the types below carry the schema, except for
    [title: z.string().min(1)]. *)

Definition ALLOWED_USERNAMES : list string := ["hubiao1688"; "ermao1688"].

Definition has (s : list string) (x : string) : bool := bool_decide (x ∈ s).

Inductive tool :=
| Tool_createProject (name : string) (description : option string)
| Tool_get_project_list
| Tool_get_project (projectId : string)
| Tool_delete_project (projectId : string)
| Tool_create_todo (projectId title : string) (description : option string)
    (priority : option Priority)
| Tool_update_todo (todoId title : string) (description : option string)
    (status : option Status) (priority : option Priority)
| Tool_delete_todo (todoId : string)
| Tool_get_todo (todoId : string)
| Tool_list_todos (projectId : string) (status : option StatusFilter).

Definition schema_ok (t : tool) : bool :=
  match t with
  | Tool_create_todo _ title _ _ => bool_decide (title ≠ "")
  | Tool_update_todo _ title _ _ _ => bool_decide (title ≠ "")
  | _ => true
  end.

Definition handler (login : string) (amb : Ambient) (t : tool) : M payload :=
  match t with
  | Tool_createProject name description => createProject login amb name description
  | Tool_get_project_list => get_project_list login
  | Tool_get_project projectId => get_project login projectId
  | Tool_delete_project projectId => delete_project login projectId
  | Tool_create_todo projectId title description priority =>
      create_todo login amb projectId title description priority
  | Tool_update_todo todoId title description status priority =>
      update_todo login amb todoId title description status priority
  | Tool_delete_todo todoId => delete_todo login todoId
  | Tool_get_todo todoId => get_todo login todoId
  | Tool_list_todos projectId status => list_todos login projectId status
  end.

(** What the caller gets back: the handler's response, the fault it raised,
    a rejection by the schema, or "no such tool". *)
Inductive reply :=
| Reply (p : payload)
| Fault (message : string)
| Invalid
| NoSuchTool.

Definition call (login : string) (amb : Ambient) (t : tool) (σ : KVNamespace)
  : reply * KVNamespace * list event :=
  if has ALLOWED_USERNAMES login then
    if schema_ok t then
      match handler login amb t σ with
      | (Ok p, σ', tr) => (Reply p, σ', tr)
      | (Throw e, σ', tr) => (Fault e, σ', tr)
      end
    else (Invalid, σ, [])
  else (NoSuchTool, σ, []).

(** A tool call as it arrives: who calls, what the environment hands out
    during the call, and the tool with its arguments. *)
Record request := mkRequest {
  caller : string;
  ambient : Ambient;
  invoked : tool;
}.

Definition serve (σ : KVNamespace) (r : request) : KVNamespace :=
  (call (caller r) (ambient r) (invoked r) σ).1.2.

(** The store after a sequence of calls served one at a time, each handler
    running all its store calls before the next call starts.  The handlers
    take no lock, so this is how the calls are taken to arrive, not
    something the code enforces. *)
Definition run (reqs : list request) (σ : KVNamespace) : KVNamespace :=
  foldl serve σ reqs.

(** Dropping the calls of one owner from a sequence. *)
Definition purge (A : string) (reqs : list request) : list request :=
  filter (λ r, caller r ≠ A) reqs.

(** ** Specification-side readings of the store *)

(** The index list under [key], an absent key being the empty list. *)
Definition idsAt (σ : KVNamespace) (key : string) : option (list string) :=
  match σ !! key with
  | None => Some []
  | Some (VIds ids) => Some ids
  | Some _ => None
  end.

(** The Todo record of [todoId], when there is one. *)
Definition todoAt (σ : KVNamespace) (login todoId : string) : option Todo :=
  match σ !! todoKey login todoId with
  | Some (VTodo t) => Some t
  | _ => None
  end.

(** Nothing but a Todo sits under the todo key of [todoId]. *)
Definition todoSlot (σ : KVNamespace) (login todoId : string) : Prop :=
  match σ !! todoKey login todoId with
  | Some (VTodo _) | None => True
  | Some _ => False
  end.

(** The todos an index list resolves to, in index order, skipping the ids
    without a record. *)
Definition resolve (σ : KVNamespace) (login : string) (ids : list string)
  : list Todo :=
  omap (todoAt σ login) ids.

(** The record [create_todo] builds. *)
Definition newTodo (amb : Ambient) (projectId title : string)
  (description : option string) (priority : option Priority) : Todo :=
  {| t_id := randomUUID amb;
     t_projectId := projectId;
     t_title := title;
     t_description := match description with Some d => d | None => "" end;
     t_status := pending;
     t_priority := match priority with Some p => p | None => medium end;
     t_createdAt := now1 amb;
     t_updatedAt := now2 amb |}.

(** ** Footprints

    Which keys a computation may read and which it may write.  The keys a
    handler reads on behalf of [login] are built by the four templates at
    that login; the keys it writes are built by three of them, or are the
    quoted key. *)

Inductive reads_of (login : string) : string → Prop :=
| reads_projectList : reads_of login (projectListKey login)
| reads_project projectId : reads_of login (projectKey login projectId)
| reads_todoList projectId : reads_of login (todoListKey login projectId)
| reads_todo todoId : reads_of login (todoKey login todoId).

Inductive writes_of (login : string) : string → Prop :=
| writes_project projectId : writes_of login (projectKey login projectId)
| writes_todoList projectId : writes_of login (todoListKey login projectId)
| writes_todo todoId : writes_of login (todoKey login todoId)
| writes_quoted : writes_of login projectListKeyQuoted.

Definition read (e : event) : option string :=
  match e with
  | EGet k => Some k
  | _ => None
  end.

Definition reads (tr : list event) : list string := omap read tr.

Definition agree (R : string → Prop) (σ σ' : KVNamespace) : Prop :=
  ∀ k, R k → σ !! k = σ' !! k.

(** [m] writes only keys in [W]: its trace shows no other [put] or [delete],
    and every other key holds afterwards what it held before. *)
Definition writes_in {A} (W : string → Prop) (m : M A) : Prop :=
  ∀ σ, (∀ k, k ∈ writes (trace_of (m σ)) → W k)
       ∧ (∀ k, ¬ W k → store_after (m σ) !! k = σ !! k).

(** [m] reads only keys in [R]: its trace shows no other [get], and on two
    stores that agree on [R] it does the same thing. *)
Definition reads_in {A} (R : string → Prop) (m : M A) : Prop :=
  (∀ σ k, k ∈ reads (trace_of (m σ)) → R k)
  ∧ (∀ σ σ', agree R σ σ' →
       outcome (m σ) = outcome (m σ')
       ∧ trace_of (m σ) = trace_of (m σ')
       ∧ agree R (store_after (m σ)) (store_after (m σ'))).

(** The login occurs in the key. *)
Definition embeds (login key : string) : Prop :=
  ∃ pre post, key = pre +:+ login +:+ post.

(** The reply of a call. *)
Definition answer (x : reply * KVNamespace * list event) : reply := x.1.1.

(** The characters of a string, and the same from its end. *)
Fixpoint chars (s : string) : list Ascii.ascii :=
  match s with
  | EmptyString => []
  | String c s' => c :: chars s'
  end.

Definition backwards (s : string) : list Ascii.ascii := reverse (chars s).

(** ** Stores the handlers produce

    What may sit under a key: a Project under a project key, an id list
    under a Todo Index key or under the quoted key, a Todo under a todo key,
    for the logins that can call the tools. *)
Inductive shape : string → value → Prop :=
| shape_project login projectId p :
    has ALLOWED_USERNAMES login = true →
    shape (projectKey login projectId) (VProject p)
| shape_todoList login projectId ids :
    has ALLOWED_USERNAMES login = true →
    shape (todoListKey login projectId) (VIds ids)
| shape_todo login todoId t :
    has ALLOWED_USERNAMES login = true →
    shape (todoKey login todoId) (VTodo t)
| shape_quoted ids :
    shape projectListKeyQuoted (VIds ids).

Definition typed (σ : KVNamespace) : Prop :=
  ∀ k v, σ !! k = Some v → shape k v.

(** Run on [σ], [m] leaves a typed store and does not stop on a value of
    the wrong shape. *)
Definition sound_at {A} (σ : KVNamespace) (m : M A) : Prop :=
  typed (store_after (m σ)) ∧ outcome (m σ) ≠ Throw malformed.

(** ** Further readings of the store *)

(** The Project record of [projectId], when there is one. *)
Definition projectAt (σ : KVNamespace) (login projectId : string) : option Project :=
  match σ !! projectKey login projectId with
  | Some (VProject p) => Some p
  | _ => None
  end.

(** Nothing but a Project sits under the project key of [projectId]. *)
Definition projectSlot (σ : KVNamespace) (login projectId : string) : Prop :=
  match σ !! projectKey login projectId with
  | Some (VProject _) | None => True
  | Some _ => False
  end.

(** The projects an index list resolves to, in index order, skipping the
    ids without a record. *)
Definition resolveProjects (σ : KVNamespace) (login : string) (ids : list string)
  : list Project :=
  omap (projectAt σ login) ids.

(** Keeping the calls of one owner of a sequence. *)
Definition calls_of (B : string) (reqs : list request) : list request :=
  filter (λ r, caller r = B) reqs.

(** Every record carries the id its key is built from. *)
Definition self_named (σ : KVNamespace) : Prop :=
  ∀ login x,
    has ALLOWED_USERNAMES login = true →
    (∀ t, σ !! todoKey login x = Some (VTodo t) → t_id t = x)
    ∧ (∀ p, σ !! projectKey login x = Some (VProject p) → p_id p = x).

(** Every id of a Todo Index has a Todo record, and that record names the
    project of the index. *)
Definition linked (σ : KVNamespace) : Prop :=
  ∀ login projectId ids id,
    has ALLOWED_USERNAMES login = true →
    σ !! todoListKey login projectId = Some (VIds ids) →
    id ∈ ids →
    ∃ t, σ !! todoKey login id = Some (VTodo t) ∧ t_projectId t = projectId.

(** No Todo Index lists an id twice. *)
Definition distinct (σ : KVNamespace) : Prop :=
  ∀ login projectId ids,
    has ALLOWED_USERNAMES login = true →
    σ !! todoListKey login projectId = Some (VIds ids) →
    NoDup ids.

Definition consistent (σ : KVNamespace) : Prop :=
  typed σ ∧ self_named σ ∧ linked σ ∧ distinct σ.

(** [σ] is the store the calls [reqs] leave when they are served from the
    empty store one at a time, no call starting before the one before it
    has made its last store call.  The source does not enforce this: a
    handler is a chain of awaited store calls without a lock. *)
Definition served_in_turn (reqs : list request) (σ : KVNamespace) : Prop :=
  σ = run reqs ∅.

(** [crypto.randomUUID()] hands [create_todo] an id that names no stored
    Todo of the caller at the time of the call. *)
Definition fresh_todo_id (σ : KVNamespace) (r : request) : Prop :=
  match invoked r with
  | Tool_create_todo _ _ _ _ =>
      σ !! todoKey (caller r) (randomUUID (ambient r)) = None
  | _ => True
  end.

Fixpoint fresh_ids (reqs : list request) (σ : KVNamespace) : Prop :=
  match reqs with
  | [] => True
  | r :: rest => fresh_todo_id σ r ∧ fresh_ids rest (serve σ r)
  end.

(** Whether [a] directly followed by [b] occurs in [l]. *)
Fixpoint has_pair (a b : Ascii.ascii) (l : list Ascii.ascii) : bool :=
  match l with
  | x :: (y :: _) as l' => (bool_decide (x = a) && bool_decide (y = b)) || has_pair a b l'
  | _ => false
  end.

(** * Proofs *)

(** ** Running the monad *)

Lemma run_cons r reqs σ : run (r :: reqs) σ = run reqs (serve σ r).
Proof. reflexivity. Qed.

Lemma bind_ok {A B} (m : M A) (f : A → M B) σ a σ1 tr1 :
  m σ = (Ok a, σ1, tr1) →
  bind m f σ = ((f a σ1).1.1, (f a σ1).1.2, tr1 ++ (f a σ1).2).
Proof. unfold bind. intros ->. by destruct (f a σ1) as [[r σ2] tr2]. Qed.

Lemma bind_run {A B} (m : M A) (f : A → M B) σ a σ1 tr1 r σ2 tr2 :
  m σ = (Ok a, σ1, tr1) →
  f a σ1 = (r, σ2, tr2) →
  bind m f σ = (r, σ2, tr1 ++ tr2).
Proof. unfold bind. by intros -> ->. Qed.

Lemma bind_throw {A B} (m : M A) (f : A → M B) σ e σ1 tr1 :
  m σ = (Throw e, σ1, tr1) → bind m f σ = (Throw e, σ1, tr1).
Proof. unfold bind. by intros ->. Qed.

Lemma getTodoList_ids login projectId σ ids :
  idsAt σ (todoListKey login projectId) = Some ids →
  getTodoList login projectId σ = (Ok ids, σ, [EGet (todoListKey login projectId)]).
Proof.
  unfold idsAt, getTodoList, bind, KV_get. intros H.
  destruct (σ !! todoListKey login projectId) as [[ | |l]|]; simplify_eq; done.
Qed.

Lemma getProjectList_ids login σ ids :
  idsAt σ (projectListKey login) = Some ids →
  getProjectList login σ = (Ok ids, σ, [EGet (projectListKey login)]).
Proof.
  unfold idsAt, getProjectList, bind, KV_get. intros H.
  destruct (σ !! projectListKey login) as [[ | |l]|]; simplify_eq; done.
Qed.

Lemma getTodosByProject_loop_resolve login σ ids todos :
  Forall (todoSlot σ login) ids →
  getTodosByProject_loop login ids todos σ
  = (Ok (todos ++ resolve σ login ids), σ, (λ id, EGet (todoKey login id)) <$> ids).
Proof.
  intros Hslots. revert todos.
  induction Hslots as [|id ids Hid _ IH]; intros todos.
  - unfold resolve; simpl. by rewrite app_nil_r.
  - unfold resolve, todoAt, todoSlot in *; simpl. unfold bind at 1, KV_get.
    destruct (σ !! todoKey login id) as [[ | t | ]|]; try done; simpl.
    + unfold bind at 1; simpl. rewrite IH. by rewrite <- app_assoc.
    + by rewrite IH.
Qed.

Lemma getTodosByProject_resolve login projectId σ ids :
  idsAt σ (todoListKey login projectId) = Some ids →
  Forall (todoSlot σ login) ids →
  getTodosByProject login projectId σ
  = (Ok (resolve σ login ids), σ,
     EGet (todoListKey login projectId) :: ((λ id, EGet (todoKey login id)) <$> ids)).
Proof.
  intros Hids Hslots. unfold getTodosByProject.
  rewrite (bind_ok _ _ _ _ _ _ (getTodoList_ids _ _ _ _ Hids)).
  by rewrite getTodosByProject_loop_resolve.
Qed.

(** ** Keys of different kinds *)

Lemma todoKey_not_todoListKey login todoId login' projectId :
  todoKey login todoId ≠ todoListKey login' projectId.
Proof. unfold todoKey, todoListKey. simpl. discriminate. Qed.

Lemma todoKey_not_projectKey login todoId login' projectId :
  todoKey login todoId ≠ projectKey login' projectId.
Proof. unfold todoKey, projectKey. simpl. discriminate. Qed.

Lemma todoKey_not_projectListKey login todoId login' :
  todoKey login todoId ≠ projectListKey login'.
Proof. unfold todoKey, projectListKey. simpl. discriminate. Qed.

Lemma todoKey_not_projectListKeyQuoted login todoId :
  todoKey login todoId ≠ projectListKeyQuoted.
Proof. unfold todoKey, projectListKeyQuoted. simpl. discriminate. Qed.

Lemma todoKey_inj login todoId todoId' :
  todoKey login todoId = todoKey login todoId' → todoId = todoId'.
Proof.
  unfold todoKey. intros H.
  apply (inj (String.append "todo:user-")) in H.
  apply (inj (String.append login)) in H.
  by apply (inj (String.append ":")) in H.
Qed.

(** ** Not-found signalling *)

(** C7: an absent todo makes [delete_todo] and [get_todo] throw, an absent
    project makes [list_todos] throw; [get_project], [delete_project],
    [create_todo] and [update_todo] answer normally with the not-found
    sentence.  In every case the store is left as it was and the only store
    call made is the [get] that found nothing. *)
Theorem not_found_signalling login amb σ :
  (∀ todoId, σ !! todoKey login todoId = None →
     delete_todo login todoId σ
       = (Throw (todoNotFound todoId), σ, [EGet (todoKey login todoId)])
     ∧ get_todo login todoId σ
       = (Throw (todoNotFound todoId), σ, [EGet (todoKey login todoId)])
     ∧ ∀ title description status priority,
         update_todo login amb todoId title description status priority σ
         = (Ok (PMessage (todoNotFound todoId)), σ, [EGet (todoKey login todoId)]))
  ∧ (∀ projectId, σ !! projectKey login projectId = None →
     (∀ status, list_todos login projectId status σ
        = (Throw (projectNotFound projectId), σ, [EGet (projectKey login projectId)]))
     ∧ get_project login projectId σ
       = (Ok (PMessage (projectNotFound projectId)), σ,
          [EGet (projectKey login projectId)])
     ∧ delete_project login projectId σ
       = (Ok (PMessage (projectNotFound projectId)), σ,
          [EGet (projectKey login projectId)])
     ∧ ∀ title description priority,
         create_todo login amb projectId title description priority σ
         = (Ok (PMessage (projectNotFound projectId)), σ,
            [EGet (projectKey login projectId)])).
Proof.
  split.
  - intros todoId H. unfold delete_todo, get_todo, update_todo, bind, KV_get.
    rewrite H. by repeat split.
  - intros projectId H.
    unfold list_todos, get_project, delete_project, create_todo, bind, KV_get.
    rewrite H. by repeat split.
Qed.

Lemma not_found_signalling_witness :
  (delete_todo "ermao1688" "t-1" ∅).1.1 = Throw "Todo with ID t-1 not found"
  ∧ (get_project "ermao1688" "p-1" ∅).1.1
    = Ok (PMessage "Project with ID p-1 not found").
Proof.
  destruct (not_found_signalling "ermao1688" (mkAmbient "u" "a" "b") ∅)
    as [Htodo Hproject].
  destruct (Htodo "t-1") as (-> & _); [reflexivity|].
  destruct (Hproject "p-1") as (_ & -> & _); [reflexivity|].
  split; reflexivity.
Defined.

(** ** Creating a todo *)

Lemma idsAt_insert_ne σ key key' v :
  key' ≠ key → idsAt (<[key' := v]> σ) key = idsAt σ key.
Proof. intros H. unfold idsAt. by rewrite lookup_insert_ne. Qed.

Lemma create_todo_run login amb projectId title description priority σ v ids :
  σ !! projectKey login projectId = Some v →
  idsAt σ (todoListKey login projectId) = Some ids →
  let todo := newTodo amb projectId title description priority in
  create_todo login amb projectId title description priority σ
  = (Ok (PTodo todo),
     <[todoListKey login projectId := VIds (ids ++ [randomUUID amb])]>
       (<[todoKey login (randomUUID amb) := VTodo todo]> σ),
     [EGet (projectKey login projectId);
      EPut (todoKey login (randomUUID amb)) (VTodo todo);
      EGet (todoListKey login projectId);
      EPut (todoListKey login projectId) (VIds (ids ++ [randomUUID amb]))]).
Proof.
  intros Hproject Hids todo.
  unfold create_todo. unfold bind at 1, KV_get. rewrite Hproject.
  unfold bind at 1, KV_put.
  erewrite (bind_ok (getTodoList _ _)); last first.
  { apply getTodoList_ids. rewrite idsAt_insert_ne; [exact Hids|].
    apply todoKey_not_todoListKey. }
  unfold bind, ret; simpl.
  by destruct description, priority.
Qed.

(** C5: without a Project record under this owner's key for [projectId],
    [create_todo] answers with the not-found sentence and writes nothing.
    With one, it builds the record with the generated id, status pending,
    priority medium unless one is given, and the two timestamps; it puts the
    record under the todo key and after that puts the index with the id
    appended. *)
Theorem create_todo_spec login amb projectId title description priority σ :
  (σ !! projectKey login projectId = None →
     create_todo login amb projectId title description priority σ
     = (Ok (PMessage (projectNotFound projectId)), σ,
        [EGet (projectKey login projectId)])
     ∧ writes (trace_of (create_todo login amb projectId title description priority σ)) = [])
  ∧ (∀ v ids,
       σ !! projectKey login projectId = Some v →
       idsAt σ (todoListKey login projectId) = Some ids →
       ∃ todo,
         create_todo login amb projectId title description priority σ
         = (Ok (PTodo todo),
            <[todoListKey login projectId := VIds (ids ++ [t_id todo])]>
              (<[todoKey login (t_id todo) := VTodo todo]> σ),
            [EGet (projectKey login projectId);
             EPut (todoKey login (t_id todo)) (VTodo todo);
             EGet (todoListKey login projectId);
             EPut (todoListKey login projectId) (VIds (ids ++ [t_id todo]))])
         ∧ t_id todo = randomUUID amb
         ∧ t_projectId todo = projectId
         ∧ t_title todo = title
         ∧ t_description todo = default "" description
         ∧ t_status todo = pending
         ∧ t_priority todo = default medium priority
         ∧ t_createdAt todo = now1 amb
         ∧ t_updatedAt todo = now2 amb).
Proof.
  split.
  - intros H. unfold create_todo, bind, KV_get, trace_of. rewrite H. by split.
  - intros v ids Hproject Hids.
    exists (newTodo amb projectId title description priority).
    split; [by eapply create_todo_run|].
    by destruct description, priority.
Qed.

Lemma create_todo_spec_witness :
  ∃ todo,
    (create_todo "ermao1688" (mkAmbient "u-2" "09:00" "09:01") "u-1" "Write spec"
       None (Some high)
       {[ projectKey "ermao1688" "u-1" := VProject (mkProject "u-1" "Launch" "v1" "08:00" "08:00") ]}).1.1
    = Ok (PTodo todo)
    ∧ t_id todo = "u-2" ∧ t_priority todo = high ∧ t_status todo = pending.
Proof.
  destruct (create_todo_spec "ermao1688" (mkAmbient "u-2" "09:00" "09:01")
              "u-1" "Write spec" None (Some high)
              {[ projectKey "ermao1688" "u-1"
                 := VProject (mkProject "u-1" "Launch" "v1" "08:00" "08:00") ]})
    as [_ H].
  destruct (H (VProject (mkProject "u-1" "Launch" "v1" "08:00" "08:00")) [])
    as (todo & Hrun & Hid & _ & _ & _ & Hstatus & Hprio & _).
  - vm_compute. reflexivity.
  - vm_compute. reflexivity.
  - exists todo. rewrite Hrun. simpl. auto.
Defined.

(** C10: when the project exists, [create_todo] answers with a Todo, and
    [get_todo] with the id of that answer, run on the store [create_todo]
    left, answers with the same record, field for field. *)
Theorem create_todo_get_todo login amb projectId title description priority σ v ids :
  σ !! projectKey login projectId = Some v →
  idsAt σ (todoListKey login projectId) = Some ids →
  ∃ todo σ',
    outcome (create_todo login amb projectId title description priority σ)
    = Ok (PTodo todo)
    ∧ store_after (create_todo login amb projectId title description priority σ) = σ'
    ∧ get_todo login (t_id todo) σ'
      = (Ok (PTodo todo), σ', [EGet (todoKey login (t_id todo))]).
Proof.
  intros Hproject Hids.
  pose proof (create_todo_run login amb projectId title description priority
                σ v ids Hproject Hids) as Hrun.
  simpl in Hrun. rewrite Hrun. unfold outcome, store_after; simpl.
  eexists _, _. split; [reflexivity|]. split; [reflexivity|].
  unfold get_todo. unfold bind at 1, KV_get.
  rewrite lookup_insert_ne; [|apply not_eq_sym, todoKey_not_todoListKey].
  simpl. by rewrite lookup_insert_eq.
Qed.

Lemma create_todo_get_todo_witness :
  ∃ todo σ',
    outcome (create_todo "ermao1688" (mkAmbient "u-2" "09:00" "09:01") "u-1"
               "Write spec" None (Some high)
               {[ projectKey "ermao1688" "u-1"
                  := VProject (mkProject "u-1" "Launch" "v1" "08:00" "08:00") ]})
    = Ok (PTodo todo)
    ∧ outcome (get_todo "ermao1688" (t_id todo) σ') = Ok (PTodo todo).
Proof.
  destruct (create_todo_get_todo "ermao1688" (mkAmbient "u-2" "09:00" "09:01")
              "u-1" "Write spec" None (Some high)
              {[ projectKey "ermao1688" "u-1"
                 := VProject (mkProject "u-1" "Launch" "v1" "08:00" "08:00") ]}
              (VProject (mkProject "u-1" "Launch" "v1" "08:00" "08:00")) [])
    as (todo & σ' & Hcreate & _ & Hget).
  - vm_compute. reflexivity.
  - vm_compute. reflexivity.
  - exists todo, σ'. split; [exact Hcreate|]. by rewrite Hget.
Defined.

(** ** Updating a todo *)

(** C4: on an existing todo [update_todo] replaces the title, sets
    [updatedAt] to the current time, replaces description, status and
    priority by the supplied values and keeps each of them when it is not
    supplied (so with the title alone all three are kept); id, projectId and
    createdAt are kept.  The one key written is the todo's record key, which
    is no index key. *)
Theorem update_todo_spec login amb todoId title description status priority σ T :
  σ !! todoKey login todoId = Some (VTodo T) →
  ∃ T',
    update_todo login amb todoId title description status priority σ
    = (Ok (PTodo T'), <[todoKey login todoId := VTodo T']> σ,
       [EGet (todoKey login todoId); EPut (todoKey login todoId) (VTodo T')])
    ∧ t_title T' = title
    ∧ t_updatedAt T' = now1 amb
    ∧ t_id T' = t_id T
    ∧ t_projectId T' = t_projectId T
    ∧ t_createdAt T' = t_createdAt T
    ∧ t_description T' = match description with Some d => d | None => t_description T end
    ∧ t_status T' = match status with Some s => s | None => t_status T end
    ∧ t_priority T' = match priority with Some p => p | None => t_priority T end
    ∧ writes (trace_of (update_todo login amb todoId title description status priority σ))
      = [todoKey login todoId]
    ∧ (∀ owner, todoKey login todoId ≠ projectListKey owner)
    ∧ todoKey login todoId ≠ projectListKeyQuoted
    ∧ (∀ owner projectId, todoKey login todoId ≠ todoListKey owner projectId).
Proof.
  intros H. unfold update_todo, bind, KV_get, KV_put, trace_of. rewrite H. simpl.
  eexists. split; [reflexivity|]. simpl.
  repeat split;
    try (by destruct description); try (by destruct status);
    try (by destruct priority);
    auto using todoKey_not_projectListKey, todoKey_not_projectListKeyQuoted,
      todoKey_not_todoListKey.
Qed.

Lemma update_todo_spec_witness :
  outcome (update_todo "ermao1688" (mkAmbient "u" "10:00" "10:00") "u-2" "Write the spec"
             None None None
             {[ todoKey "ermao1688" "u-2"
                := VTodo (mkTodo "u-2" "u-1" "Write spec" "draft" in_progress high
                            "09:00" "09:01") ]})
  = Ok (PTodo (mkTodo "u-2" "u-1" "Write the spec" "draft" in_progress high
                 "09:00" "10:00")).
Proof.
  destruct (update_todo_spec "ermao1688" (mkAmbient "u" "10:00" "10:00") "u-2"
              "Write the spec" None None None
              {[ todoKey "ermao1688" "u-2"
                 := VTodo (mkTodo "u-2" "u-1" "Write spec" "draft" in_progress high
                             "09:00" "09:01") ]}
              (mkTodo "u-2" "u-1" "Write spec" "draft" in_progress high "09:00" "09:01"))
    as (T' & Hrun & Ht & Hu & Hi & Hp & Hc & Hd & Hs & Hpr & _).
  - vm_compute. reflexivity.
  - rewrite Hrun. unfold outcome; simpl. destruct T'; simpl in *. by subst.
Defined.

(** ** Listing the todos of a project *)

(** C6: for an existing project [list_todos] with a status value answers
    with the todos the Todo Index resolves to whose status is that value, in
    index order; with ["all"] or without a status it answers with all of
    them; without a Project record it throws.  It writes nothing. *)
Theorem list_todos_spec login projectId σ :
  (∀ v ids,
     σ !! projectKey login projectId = Some v →
     idsAt σ (todoListKey login projectId) = Some ids →
     Forall (todoSlot σ login) ids →
     (∀ s, outcome (list_todos login projectId (Some (only s)) σ)
           = Ok (PTodos (filter (λ t, t_status t = s) (resolve σ login ids))))
     ∧ outcome (list_todos login projectId (Some all) σ)
       = Ok (PTodos (resolve σ login ids))
     ∧ outcome (list_todos login projectId None σ)
       = Ok (PTodos (resolve σ login ids))
     ∧ ∀ status, store_after (list_todos login projectId status σ) = σ)
  ∧ (σ !! projectKey login projectId = None →
     ∀ status, outcome (list_todos login projectId status σ)
               = Throw (projectNotFound projectId)).
Proof.
  split.
  - intros v ids Hproject Hids Hslots.
    assert (∀ status, list_todos login projectId status σ
      = (Ok (PTodos match status with
                    | Some (only s) => filter (λ t, t_status t = s) (resolve σ login ids)
                    | _ => resolve σ login ids
                    end), σ,
         EGet (projectKey login projectId) :: EGet (todoListKey login projectId)
           :: ((λ id, EGet (todoKey login id)) <$> ids))) as Hrun.
    { intros status. unfold list_todos. unfold bind at 1, KV_get. rewrite Hproject.
      erewrite bind_ok by (by apply getTodosByProject_resolve).
      unfold ret; simpl. by rewrite app_nil_r. }
    unfold outcome, store_after.
    repeat split; intros; by rewrite Hrun.
  - intros H status. unfold list_todos, bind, KV_get, outcome. by rewrite H.
Qed.

Lemma list_todos_spec_witness :
  let a := mkTodo "a" "p" "one" "" pending medium "09:00" "09:00" in
  let b := mkTodo "b" "p" "two" "" completed low "09:01" "09:01" in
  let c := mkTodo "c" "p" "three" "" pending high "09:02" "09:02" in
  let σ : KVNamespace :=
    {[ projectKey "ermao1688" "p" := VProject (mkProject "p" "Launch" "v1" "08:00" "08:00");
       todoListKey "ermao1688" "p" := VIds ["a"; "b"; "c"];
       todoKey "ermao1688" "a" := VTodo a;
       todoKey "ermao1688" "b" := VTodo b;
       todoKey "ermao1688" "c" := VTodo c ]} in
  outcome (list_todos "ermao1688" "p" (Some (only pending)) σ) = Ok (PTodos [a; c])
  ∧ outcome (list_todos "ermao1688" "p" None σ) = Ok (PTodos [a; b; c]).
Proof.
  intros a b c σ.
  destruct (list_todos_spec "ermao1688" "p" σ) as [H _].
  destruct (H (VProject (mkProject "p" "Launch" "v1" "08:00" "08:00")) ["a"; "b"; "c"])
    as (Honly & _ & Hnone & _).
  - vm_compute. reflexivity.
  - vm_compute. reflexivity.
  - repeat constructor; vm_compute; exact I.
  - rewrite Honly, Hnone. split; vm_compute; reflexivity.
Defined.

(** ** Removing an id from an index list *)

Lemma indexOf_first pre x post :
  x ∉ pre → indexOf (pre ++ x :: post) x = Some (length pre).
Proof.
  induction pre as [|y pre IH]; intros Hx; simpl.
  - by rewrite decide_True.
  - apply not_elem_of_cons in Hx as [Hxy Hpre].
    rewrite decide_False by done. by rewrite IH.
Qed.

Lemma indexOf_None l x : x ∉ l → indexOf l x = None.
Proof.
  induction l as [|y l IH]; intros Hx; simpl; [done|].
  apply not_elem_of_cons in Hx as [Hxy Hl].
  rewrite decide_False by done. by rewrite IH.
Qed.

(** [indexOf] then [splice(index, 1)] takes out the first occurrence and
    nothing else. *)
Lemma spliceOut_first pre x post :
  x ∉ pre → spliceOut (pre ++ x :: post) x = pre ++ post.
Proof.
  intros Hx. unfold spliceOut, splice. rewrite indexOf_first by done.
  rewrite take_app_length. f_equal.
  replace (length pre + 1) with (length pre + 1 + 0) by lia.
  rewrite <- Nat.add_assoc. by rewrite drop_app_add.
Qed.

Lemma spliceOut_absent l x : x ∉ l → spliceOut l x = l.
Proof. intros Hx. unfold spliceOut. by rewrite indexOf_None. Qed.

Lemma deleteTodo_run login projectId todoId σ ids :
  idsAt σ (todoListKey login projectId) = Some ids →
  deleteTodo login projectId todoId σ
  = (Ok tt,
     <[todoListKey login projectId := VIds (spliceOut ids todoId)]> σ,
     [EGet (todoListKey login projectId);
      EPut (todoListKey login projectId) (VIds (spliceOut ids todoId))]).
Proof.
  intros Hids. unfold deleteTodo.
  by erewrite bind_ok by (by apply getTodoList_ids).
Qed.

Lemma delete_todo_run login todoId σ T ids :
  σ !! todoKey login todoId = Some (VTodo T) →
  idsAt σ (todoListKey login (t_projectId T)) = Some ids →
  delete_todo login todoId σ
  = (Ok (PMessage (todoDeleted todoId)),
     delete (todoKey login todoId)
       (<[todoListKey login (t_projectId T)
          := VIds (filter (λ id, id ≠ todoId) ids)]> σ),
     [EGet (todoKey login todoId);
      EGet (todoListKey login (t_projectId T));
      EPut (todoListKey login (t_projectId T)) (VIds (filter (λ id, id ≠ todoId) ids));
      EDelete (todoKey login todoId)]).
Proof.
  intros Htodo Hids. unfold delete_todo. unfold bind at 1, KV_get. rewrite Htodo.
  unfold asTodo. unfold bind at 1, ret.
  by erewrite bind_ok by (by apply getTodoList_ids).
Qed.

(** C8 as stated fails for [delete_todo]: with the id twice in the index,
    one [delete_todo] leaves no occurrence, where removing the first
    occurrence would leave one. *)
Lemma delete_todo_removes_every_occurrence :
  ¬ (∀ login todoId σ T ids,
       σ !! todoKey login todoId = Some (VTodo T) →
       idsAt σ (todoListKey login (t_projectId T)) = Some ids →
       idsAt (store_after (delete_todo login todoId σ))
         (todoListKey login (t_projectId T))
       = Some (spliceOut ids todoId)).
Proof.
  intros H.
  specialize (H "ermao1688" "t"
    {[ todoKey "ermao1688" "t"
         := VTodo (mkTodo "t" "p" "Write spec" "" pending high "09:00" "09:00");
       todoListKey "ermao1688" "p" := VIds ["t"; "x"; "t"] ]}
    (mkTodo "t" "p" "Write spec" "" pending high "09:00" "09:00")
    ["t"; "x"; "t"]).
  vm_compute in H. specialize (H eq_refl eq_refl). discriminate H.
Qed.

(** C8, amended: the cascade's per-todo removal ([deleteTodo]) rewrites the
    index without the first occurrence of the id and keeps every later
    occurrence in place; [delete_todo] rewrites the index without any
    occurrence of the id. *)
Theorem index_removal login σ todoId :
  (∀ projectId ids,
     idsAt σ (todoListKey login projectId) = Some ids →
     idsAt (store_after (deleteTodo login projectId todoId σ))
       (todoListKey login projectId)
     = Some (spliceOut ids todoId)
     ∧ (∀ pre post, ids = pre ++ todoId :: post → todoId ∉ pre →
          spliceOut ids todoId = pre ++ post)
     ∧ (todoId ∉ ids → spliceOut ids todoId = ids))
  ∧ (∀ T ids,
       σ !! todoKey login todoId = Some (VTodo T) →
       idsAt σ (todoListKey login (t_projectId T)) = Some ids →
       idsAt (store_after (delete_todo login todoId σ))
         (todoListKey login (t_projectId T))
       = Some (filter (λ id, id ≠ todoId) ids)
       ∧ todoId ∉ filter (λ id, id ≠ todoId) ids).
Proof.
  split.
  - intros projectId ids Hids. split; [|split].
    + rewrite (deleteTodo_run _ _ _ _ _ Hids). unfold store_after, idsAt; simpl.
      by rewrite lookup_insert_eq.
    + intros pre post -> Hpre. by apply spliceOut_first.
    + apply spliceOut_absent.
  - intros T ids Htodo Hids. split.
    + rewrite (delete_todo_run _ _ _ _ _ Htodo Hids).
      unfold store_after, idsAt; simpl.
      rewrite lookup_delete_ne by apply todoKey_not_todoListKey.
      by rewrite lookup_insert_eq.
    + rewrite list_elem_of_filter. by intros [? _].
Qed.

Lemma index_removal_witness :
  idsAt (store_after (deleteTodo "ermao1688" "p" "t"
           {[ todoListKey "ermao1688" "p" := VIds ["t"; "x"; "t"] ]}))
    (todoListKey "ermao1688" "p")
  = Some ["x"; "t"]
  ∧ idsAt (store_after (delete_todo "ermao1688" "t"
             {[ todoKey "ermao1688" "t"
                  := VTodo (mkTodo "t" "p" "Write spec" "" pending high "09:00" "09:00");
                todoListKey "ermao1688" "p" := VIds ["t"; "x"; "t"] ]}))
      (todoListKey "ermao1688" "p")
    = Some ["x"].
Proof.
  split.
  - destruct (index_removal "ermao1688"
                {[ todoListKey "ermao1688" "p" := VIds ["t"; "x"; "t"] ]} "t")
      as [H _].
    destruct (H "p" ["t"; "x"; "t"]) as [-> _]; vm_compute; reflexivity.
  - destruct (index_removal "ermao1688"
                {[ todoKey "ermao1688" "t"
                     := VTodo (mkTodo "t" "p" "Write spec" "" pending high "09:00" "09:00");
                   todoListKey "ermao1688" "p" := VIds ["t"; "x"; "t"] ]} "t")
      as [_ H].
    destruct (H (mkTodo "t" "p" "Write spec" "" pending high "09:00" "09:00")
                ["t"; "x"; "t"]) as [Hrun _].
    + vm_compute. reflexivity.
    + vm_compute. reflexivity.
    + simpl in Hrun. rewrite Hrun. vm_compute. reflexivity.
Defined.

(** ** Footprints of the store calls and of [bind] *)

Section Footprints.
Context {A B : Type}.
Variables (R W : string → Prop).

Lemma writes_in_ret (a : A) : writes_in W (ret a).
Proof. intros σ. split; [|done]. intros k Hk. by apply elem_of_nil in Hk. Qed.

Lemma writes_in_throw e : writes_in W (throw (A:=A) e).
Proof. intros σ. split; [|done]. intros k Hk. by apply elem_of_nil in Hk. Qed.

Lemma writes_in_get key : writes_in W (KV_get key).
Proof. intros σ. split; [|done]. intros k Hk. by apply elem_of_nil in Hk. Qed.

Lemma writes_in_put key v : W key → writes_in W (KV_put key v).
Proof.
  intros Hkey σ. split.
  - intros k Hk. apply list_elem_of_singleton in Hk. by subst.
  - intros k Hk. unfold store_after, KV_put; simpl.
    apply lookup_insert_ne. by intros ->.
Qed.

Lemma writes_in_delete key : W key → writes_in W (KV_delete key).
Proof.
  intros Hkey σ. split.
  - intros k Hk. apply list_elem_of_singleton in Hk. by subst.
  - intros k Hk. unfold store_after, KV_delete; simpl.
    apply lookup_delete_ne. by intros ->.
Qed.

Lemma writes_in_bind (m : M A) (f : A → M B) :
  writes_in W m → (∀ a, writes_in W (f a)) → writes_in W (bind m f).
Proof.
  intros Hm Hf σ. specialize (Hm σ). unfold bind, trace_of, store_after in *.
  destruct (m σ) as [[[a|e] σ1] tr1]; simpl in *; [|done].
  specialize (Hf a σ1). unfold trace_of, store_after in Hf.
  destruct (f a σ1) as [[r σ2] tr2]; simpl in *.
  destruct Hm as [Hm1 Hm2], Hf as [Hf1 Hf2]. split.
  - intros k. unfold writes. rewrite omap_app, elem_of_app. intros [?|?]; auto.
  - intros k Hk. rewrite Hf2, Hm2; auto.
Qed.

Lemma reads_in_ret (a : A) : reads_in R (ret a).
Proof. split; [|done]. intros σ k Hk. by apply elem_of_nil in Hk. Qed.

Lemma reads_in_throw e : reads_in R (throw (A:=A) e).
Proof. split; [|done]. intros σ k Hk. by apply elem_of_nil in Hk. Qed.

Lemma reads_in_get key : R key → reads_in R (KV_get key).
Proof.
  intros Hkey. split.
  - intros σ k Hk. apply list_elem_of_singleton in Hk. by subst.
  - intros σ σ' H. unfold outcome, trace_of, store_after, KV_get; simpl.
    by rewrite (H key Hkey).
Qed.

Lemma reads_in_put key v : reads_in R (KV_put key v).
Proof.
  split.
  - intros σ k Hk. by apply elem_of_nil in Hk.
  - intros σ σ' H. unfold outcome, trace_of, store_after, KV_put; simpl.
    repeat split. intros k Hk.
    destruct (decide (key = k)) as [->|Hne].
    + by rewrite !lookup_insert_eq.
    + rewrite !lookup_insert_ne by done. auto.
Qed.

Lemma reads_in_delete key : reads_in R (KV_delete key).
Proof.
  split.
  - intros σ k Hk. by apply elem_of_nil in Hk.
  - intros σ σ' H. unfold outcome, trace_of, store_after, KV_delete; simpl.
    repeat split. intros k Hk.
    destruct (decide (key = k)) as [->|Hne].
    + by rewrite !lookup_delete_eq.
    + rewrite !lookup_delete_ne by done. auto.
Qed.

Lemma reads_in_bind (m : M A) (f : A → M B) :
  reads_in R m → (∀ a, reads_in R (f a)) → reads_in R (bind m f).
Proof.
  intros [Hm1 Hm2] Hf. split.
  - intros σ k. specialize (Hm1 σ). unfold bind, trace_of in *.
    destruct (m σ) as [[[a|e] σ1] tr1]; simpl in *; [|auto].
    destruct (Hf a) as [Hf1 _]. specialize (Hf1 σ1). unfold trace_of in Hf1.
    destruct (f a σ1) as [[r σ2] tr2]; simpl in *.
    unfold reads. rewrite omap_app, elem_of_app. intros [?|?]; auto.
  - intros σ σ' H. specialize (Hm2 σ σ' H).
    unfold bind, outcome, trace_of, store_after in *.
    destruct (m σ) as [[[a|e] σ1] tr1], (m σ') as [[[a'|e'] σ1'] tr1'];
      simpl in *; destruct Hm2 as (Ho & Ht & Hs); simplify_eq; [|done].
    destruct (Hf a') as [_ Hf2]. specialize (Hf2 σ1 σ1' Hs).
    unfold outcome, trace_of, store_after in Hf2.
    destruct (f a' σ1) as [[r σ2] tr2], (f a' σ1') as [[r' σ2'] tr2'];
      simpl in *. destruct Hf2 as (-> & -> & ?). done.
Qed.

End Footprints.

Create HintDb footprint.
#[local] Hint Constructors reads_of writes_of : footprint.

Ltac footprint_step :=
  first
    [ apply writes_in_ret | apply writes_in_throw | apply writes_in_get
    | apply writes_in_put | apply writes_in_delete
    | apply reads_in_ret | apply reads_in_throw | apply reads_in_get
    | apply reads_in_put | apply reads_in_delete
    | apply writes_in_bind; [|intros ?]
    | apply reads_in_bind; [|intros ?]
    | match goal with
      | |- writes_in _ (match ?x with _ => _ end) => destruct x
      | |- reads_in _ (match ?x with _ => _ end) => destruct x
      end ].

Ltac footprint :=
  repeat footprint_step; auto with footprint.

Section HandlerFootprints.
Variable login : string.

(** The helpers that only read write nothing, whatever [W] is. *)
Section ReadOnly.
Variable W : string → Prop.

Lemma asIds_writes v : writes_in W (asIds v).
Proof. unfold asIds. footprint. Qed.
Lemma asTodo_writes v : writes_in W (asTodo v).
Proof. unfold asTodo. footprint. Qed.
Lemma asProject_writes v : writes_in W (asProject v).
Proof. unfold asProject. footprint. Qed.

Hint Resolve asIds_writes asTodo_writes asProject_writes : footprint.

Lemma getProjectList_writes : writes_in W (getProjectList login).
Proof. unfold getProjectList. footprint. Qed.

Lemma getTodoList_writes projectId : writes_in W (getTodoList login projectId).
Proof. unfold getTodoList. footprint. Qed.

Hint Resolve getProjectList_writes getTodoList_writes : footprint.

Lemma getTodosByProject_loop_writes todoList todos :
  writes_in W (getTodosByProject_loop login todoList todos).
Proof. revert todos. induction todoList; intros todos; simpl; footprint. Qed.

Hint Resolve getTodosByProject_loop_writes : footprint.

Lemma getTodosByProject_writes projectId :
  writes_in W (getTodosByProject login projectId).
Proof. unfold getTodosByProject. footprint. Qed.

Lemma get_project_list_loop_writes projectList projects :
  writes_in W (get_project_list_loop login projectList projects).
Proof. revert projects. induction projectList; intros projects; simpl; footprint. Qed.

(** The cascade's removal writes the Todo Index of the project, no more. *)
Lemma deleteTodo_writes projectId todoId :
  W (todoListKey login projectId) →
  writes_in W (deleteTodo login projectId todoId).
Proof. intros H. unfold deleteTodo. footprint. Qed.

Hint Resolve deleteTodo_writes : footprint.

Lemma delete_project_loop_writes projectId todos :
  W (todoListKey login projectId) →
  writes_in W (delete_project_loop login projectId todos).
Proof. intros H. induction todos; simpl; footprint. Qed.

End ReadOnly.

Hint Resolve asIds_writes asTodo_writes asProject_writes getProjectList_writes
  getTodoList_writes getTodosByProject_loop_writes getTodosByProject_writes
  get_project_list_loop_writes deleteTodo_writes delete_project_loop_writes
  : footprint.

Lemma asIds_reads v : reads_in (reads_of login) (asIds v).
Proof. unfold asIds. footprint. Qed.
Lemma asTodo_reads v : reads_in (reads_of login) (asTodo v).
Proof. unfold asTodo. footprint. Qed.
Lemma asProject_reads v : reads_in (reads_of login) (asProject v).
Proof. unfold asProject. footprint. Qed.

Hint Resolve asIds_reads asTodo_reads asProject_reads : footprint.

Lemma getProjectList_reads : reads_in (reads_of login) (getProjectList login).
Proof. unfold getProjectList. footprint. Qed.

Lemma getTodoList_reads projectId :
  reads_in (reads_of login) (getTodoList login projectId).
Proof. unfold getTodoList. footprint. Qed.

Hint Resolve getProjectList_reads getTodoList_reads : footprint.

Lemma getTodosByProject_loop_reads todoList todos :
  reads_in (reads_of login) (getTodosByProject_loop login todoList todos).
Proof. revert todos. induction todoList; intros todos; simpl; footprint. Qed.

Hint Resolve getTodosByProject_loop_reads : footprint.

Lemma getTodosByProject_reads projectId :
  reads_in (reads_of login) (getTodosByProject login projectId).
Proof. unfold getTodosByProject. footprint. Qed.

Lemma deleteTodo_reads projectId todoId :
  reads_in (reads_of login) (deleteTodo login projectId todoId).
Proof. unfold deleteTodo. footprint. Qed.

Hint Resolve getTodosByProject_reads deleteTodo_reads : footprint.

Lemma get_project_list_loop_reads projectList projects :
  reads_in (reads_of login) (get_project_list_loop login projectList projects).
Proof. revert projects. induction projectList; intros projects; simpl; footprint. Qed.

Lemma delete_project_loop_reads projectId todos :
  reads_in (reads_of login) (delete_project_loop login projectId todos).
Proof. induction todos; simpl; footprint. Qed.

Hint Resolve get_project_list_loop_reads delete_project_loop_reads : footprint.

(** Every handler writes only keys of [writes_of login]. *)
Lemma handler_writes amb t : writes_in (writes_of login) (handler login amb t).
Proof.
  destruct t; simpl;
    unfold createProject, get_project_list, get_project, delete_project,
      create_todo, update_todo, delete_todo, get_todo, list_todos;
    cbv zeta; footprint.
Qed.

(** Every handler reads only keys of [reads_of login], and what it does
    depends on the store through those keys alone. *)
Lemma handler_reads amb t : reads_in (reads_of login) (handler login amb t).
Proof.
  destruct t; simpl;
    unfold createProject, get_project_list, get_project, delete_project,
      create_todo, update_todo, delete_todo, get_todo, list_todos;
    cbv zeta; footprint.
Qed.

(** [delete_project] writes the project's Todo Index, deletes the Project
    record and writes the quoted key; it writes no other key. *)
Lemma delete_project_writes projectId :
  writes_in (λ k, k = todoListKey login projectId
                  ∨ k = projectKey login projectId
                  ∨ k = projectListKeyQuoted)
    (delete_project login projectId).
Proof. unfold delete_project. footprint. Qed.

(** [createProject] writes the Project record and the quoted key. *)
Lemma createProject_writes amb name description :
  writes_in (λ k, k = projectKey login (randomUUID amb) ∨ k = projectListKeyQuoted)
    (createProject login amb name description).
Proof. unfold createProject. cbv zeta. footprint. Qed.

End HandlerFootprints.

(** ** Keys of the allowed logins

    Strings are compared from their ends through their reversed character
    lists: a key that ends in the login cannot be one that ends in [:list]
    or [:todos], and the two allowed logins end differently. *)

Lemma chars_app s1 s2 : chars (s1 +:+ s2) = chars s1 ++ chars s2.
Proof. induction s1 as [|c s1 IH]; simpl; [done|]. by rewrite IH. Qed.

Lemma backwards_app s1 s2 : backwards (s1 +:+ s2) = backwards s2 ++ backwards s1.
Proof. unfold backwards. by rewrite chars_app, reverse_app. Qed.

Ltac keys_differ H :=
  exfalso;
  unfold projectListKey, projectListKeyQuoted, projectKey, todoListKey, todoKey in H;
  first
    [ simpl in H; discriminate H
    | apply (f_equal backwards) in H;
      repeat rewrite backwards_app in H;
      cbv [backwards chars reverse rev_append] in H; simpl in H;
      discriminate H ].

Lemma allowed_cases login :
  has ALLOWED_USERNAMES login = true → login = "hubiao1688" ∨ login = "ermao1688".
Proof.
  unfold has, ALLOWED_USERNAMES. intros H. apply bool_decide_eq_true in H.
  rewrite !elem_of_cons in H. destruct H as [?|[?|H]]; auto.
  by apply elem_of_nil in H.
Qed.

(** No allowed caller writes the key from which [getProjectList] reads, for
    any allowed owner. *)
Lemma projectListKey_not_written owner login :
  has ALLOWED_USERNAMES owner = true →
  has ALLOWED_USERNAMES login = true →
  ¬ writes_of login (projectListKey owner).
Proof.
  intros [-> | ->]%allowed_cases [-> | ->]%allowed_cases Hw;
    inversion Hw as [p H|p H|t H|H]; keys_differ H.
Qed.

(** What one allowed owner writes, another never reads. *)
Lemma reads_writes_apart A B k :
  has ALLOWED_USERNAMES A = true →
  has ALLOWED_USERNAMES B = true →
  A ≠ B →
  writes_of A k → reads_of B k → False.
Proof.
  intros [-> | ->]%allowed_cases [-> | ->]%allowed_cases Hne Hw Hr; try done;
    destruct Hw; inversion Hr as [H|p H|p H|t H]; keys_differ H.
Qed.

(** ** The stores reached from the empty one are typed

    On a typed store no read meets a value of the wrong shape, so the
    fault of [asIds], [asProject] and [asTodo] never fires in a run that
    starts from the empty store. *)

Lemma typed_empty : typed ∅.
Proof. intros k v H. by rewrite lookup_empty in H. Qed.

Lemma typed_insert σ k v : typed σ → shape k v → typed (<[k := v]> σ).
Proof.
  intros Hσ Hkv k' v' H. destruct (decide (k = k')) as [->|Hne].
  - rewrite lookup_insert_eq in H. by simplify_eq.
  - rewrite lookup_insert_ne in H by done. by apply Hσ.
Qed.

Lemma typed_delete σ k : typed σ → typed (delete k σ).
Proof.
  intros Hσ k' v' H. destruct (decide (k = k')) as [->|Hne].
  - by rewrite lookup_delete_eq in H.
  - rewrite lookup_delete_ne in H by done. by apply Hσ.
Qed.

Ltac shape_cases H :=
  inversion H as [l p x Hl Hk|l p x Hl Hk|l t x Hl Hk|x Hk];
  try (apply allowed_cases in Hl as [-> | ->]);
  subst; eauto; try keys_differ Hk.

Lemma typed_todo login σ todoId v :
  has ALLOWED_USERNAMES login = true →
  typed σ → σ !! todoKey login todoId = Some v → ∃ t, v = VTodo t.
Proof.
  intros [-> | ->]%allowed_cases Hσ Hv; apply Hσ in Hv; shape_cases Hv.
Qed.

Lemma typed_todoList login σ projectId v :
  has ALLOWED_USERNAMES login = true →
  typed σ → σ !! todoListKey login projectId = Some v → ∃ ids, v = VIds ids.
Proof.
  intros [-> | ->]%allowed_cases Hσ Hv; apply Hσ in Hv; shape_cases Hv.
Qed.

Lemma typed_project login σ projectId v :
  has ALLOWED_USERNAMES login = true →
  typed σ → σ !! projectKey login projectId = Some v → ∃ p, v = VProject p.
Proof.
  intros [-> | ->]%allowed_cases Hσ Hv; apply Hσ in Hv; shape_cases Hv.
Qed.

Lemma typed_projectList login σ :
  has ALLOWED_USERNAMES login = true →
  typed σ → σ !! projectListKey login = None.
Proof.
  intros [-> | ->]%allowed_cases Hσ;
    (destruct (σ !! projectListKey _) as [v|] eqn:Hv; [|done]);
    apply Hσ in Hv; shape_cases Hv.
Qed.

Section Sound.
Context {A B : Type}.
Implicit Types (σ : KVNamespace).

Lemma sound_ret σ (a : A) : typed σ → sound_at σ (ret a).
Proof. by split. Qed.

Lemma sound_throw σ e : typed σ → e ≠ malformed → sound_at σ (throw (A:=A) e).
Proof. intros Hσ He. split; [done|]. unfold outcome, throw; simpl. congruence. Qed.

Lemma sound_put σ k v : typed σ → shape k v → sound_at σ (KV_put k v).
Proof. intros Hσ Hkv. split; [by apply typed_insert|done]. Qed.

Lemma sound_delete σ k : typed σ → sound_at σ (KV_delete k).
Proof. intros Hσ. split; [by apply typed_delete|done]. Qed.

Lemma sound_bind σ (m : M A) (f : A → M B) :
  sound_at σ m →
  (∀ a σ1 tr1, m σ = (Ok a, σ1, tr1) → typed σ1 → sound_at σ1 (f a)) →
  sound_at σ (bind m f).
Proof.
  unfold sound_at, bind, outcome, store_after. intros [Hσ1 Hr] Hf.
  destruct (m σ) as [[[a|e] σ1] tr1]; simpl in *.
  2: { split; [done|]. intros [= ->]. by apply Hr. }
  specialize (Hf a σ1 tr1 eq_refl Hσ1).
  by destruct (f a σ1) as [[r σ2] tr2].
Qed.

(** After a [get] the continuation runs on the same store, with what the
    store holds under the key. *)
Lemma sound_get_bind σ k (f : option value → M B) :
  sound_at σ (f (σ !! k)) → sound_at σ (bind (KV_get k) f).
Proof.
  unfold sound_at, bind, KV_get, outcome, store_after; simpl.
  by destruct (f (σ !! k) σ) as [[r σ2] tr2].
Qed.

End Sound.

Lemma projectNotFound_not_malformed projectId : projectNotFound projectId ≠ malformed.
Proof. unfold projectNotFound, malformed. simpl. discriminate. Qed.

Lemma todoNotFound_not_malformed todoId : todoNotFound todoId ≠ malformed.
Proof. unfold todoNotFound, malformed. simpl. discriminate. Qed.

Section HandlersSound.
Variable login : string.
Hypothesis allowed : has ALLOWED_USERNAMES login = true.

Ltac sound_step :=
  match goal with
  | |- sound_at _ (ret _) => by apply sound_ret
  | |- sound_at _ (throw _) =>
      apply sound_throw;
      [done|auto using projectNotFound_not_malformed, todoNotFound_not_malformed]
  | |- sound_at _ (KV_put _ _) => apply sound_put; [done|by constructor]
  | |- sound_at _ (KV_delete _) => by apply sound_delete
  | |- sound_at ?σ (bind (KV_get ?k) _) =>
      apply sound_get_bind; let E := fresh "E" in
      destruct (σ !! k) as [?|] eqn:E
  | E : ?σ !! todoKey login _ = Some ?v |- sound_at ?σ (bind (asTodo ?v) _) =>
      apply (typed_todo login) in E as [? ->]; [|done..]; simpl
  | E : ?σ !! projectKey login _ = Some ?v |- sound_at ?σ (bind (asProject ?v) _) =>
      apply (typed_project login) in E as [? ->]; [|done..]; simpl
  | E : ?σ !! todoListKey login _ = Some ?v |- sound_at ?σ (asIds ?v) =>
      apply (typed_todoList login) in E as [? ->]; [|done..]; simpl
  | E : ?σ !! projectListKey login = Some ?v |- _ =>
      rewrite (typed_projectList login) in E by done; discriminate E
  | |- sound_at _ (bind _ _) =>
      apply sound_bind;
      [|let a := fresh "a" in let σ1 := fresh "σ" in let H := fresh "Hrun" in
        let Hσ := fresh "Hσ" in intros a σ1 ? H Hσ;
        try (unfold ret in H; simplify_eq)]
  end.

Lemma getProjectList_sound σ : typed σ → sound_at σ (getProjectList login).
Proof. intros Hσ. unfold getProjectList. repeat sound_step. Qed.

Lemma getTodoList_sound σ projectId :
  typed σ → sound_at σ (getTodoList login projectId).
Proof. intros Hσ. unfold getTodoList. repeat sound_step. Qed.

Lemma getTodosByProject_loop_sound σ todoList todos :
  typed σ → sound_at σ (getTodosByProject_loop login todoList todos).
Proof.
  intros Hσ. revert todos.
  induction todoList as [|todoId rest IH]; intros todos; simpl;
    repeat sound_step; auto.
Qed.

Lemma getTodosByProject_sound σ projectId :
  typed σ → sound_at σ (getTodosByProject login projectId).
Proof.
  intros Hσ. unfold getTodosByProject. sound_step.
  - by apply getTodoList_sound.
  - by apply getTodosByProject_loop_sound.
Qed.

Lemma deleteTodo_sound σ projectId todoId :
  typed σ → sound_at σ (deleteTodo login projectId todoId).
Proof.
  intros Hσ. unfold deleteTodo. sound_step.
  - by apply getTodoList_sound.
  - sound_step.
Qed.

Lemma delete_project_loop_sound σ projectId todos :
  typed σ → sound_at σ (delete_project_loop login projectId todos).
Proof.
  revert σ. induction todos as [|todo rest IH]; intros σ Hσ; simpl.
  - sound_step.
  - sound_step; [by apply deleteTodo_sound|by apply IH].
Qed.

Lemma get_project_list_loop_sound σ projectList projects :
  typed σ → sound_at σ (get_project_list_loop login projectList projects).
Proof.
  intros Hσ. revert projects.
  induction projectList as [|projectId rest IH]; intros projects; simpl;
    repeat sound_step; auto.
Qed.

Hint Resolve getProjectList_sound getTodoList_sound getTodosByProject_loop_sound
  getTodosByProject_sound deleteTodo_sound delete_project_loop_sound
  get_project_list_loop_sound : core.

(** On a typed store every handler leaves a typed store and does not meet
    a value of the wrong shape. *)
Lemma handler_sound amb t σ : typed σ → sound_at σ (handler login amb t).
Proof.
  intros Hσ.
  destruct t; simpl;
    unfold createProject, get_project_list, get_project, delete_project,
      create_todo, update_todo, delete_todo, get_todo, list_todos;
    cbv zeta; repeat (sound_step; auto).
Qed.

End HandlersSound.

Lemma serve_typed σ r : typed σ → typed (serve σ r).
Proof.
  intros Hσ. unfold serve, call.
  destruct (has ALLOWED_USERNAMES (caller r)) eqn:Hallowed; [|done].
  destruct (schema_ok (invoked r)); [|done].
  destruct (handler_sound (caller r) Hallowed (ambient r) (invoked r) σ Hσ)
    as [Htyped _].
  unfold store_after in Htyped.
  by destruct (handler (caller r) (ambient r) (invoked r) σ) as [[[p|e] σ'] tr].
Qed.

Lemma run_typed reqs σ : typed σ → typed (run reqs σ).
Proof.
  revert σ. induction reqs as [|r reqs IH]; intros σ Hσ; [done|].
  rewrite run_cons. by apply IH, serve_typed.
Qed.

(** On a typed store the side conditions of the theorems on single
    handlers hold by themselves. *)
Lemma typed_idsAt login σ projectId :
  has ALLOWED_USERNAMES login = true →
  typed σ → ∃ ids, idsAt σ (todoListKey login projectId) = Some ids.
Proof.
  intros Hallowed Hσ. unfold idsAt.
  destruct (σ !! todoListKey login projectId) as [v|] eqn:Hv; [|by eexists].
  apply (typed_todoList login) in Hv as [ids ->]; [by eexists|done..].
Qed.

Lemma typed_todoSlot login σ ids :
  has ALLOWED_USERNAMES login = true →
  typed σ → Forall (todoSlot σ login) ids.
Proof.
  intros Hallowed Hσ. apply Forall_forall. intros todoId _. unfold todoSlot.
  destruct (σ !! todoKey login todoId) as [v|] eqn:Hv; [|done].
  by apply (typed_todo login) in Hv as [t ->].
Qed.

(** From the empty store no call ever ends in the wrong-shape fault. *)
Lemma never_malformed reqs login amb t :
  answer (call login amb t (run reqs ∅)) ≠ Fault malformed.
Proof.
  unfold answer, call.
  destruct (has ALLOWED_USERNAMES login) eqn:Hallowed; [|done].
  destruct (schema_ok t); [|done].
  destruct (handler_sound login Hallowed amb t (run reqs ∅)) as [_ Hok].
  { apply run_typed, typed_empty. }
  unfold outcome in Hok.
  destruct (handler login amb t (run reqs ∅)) as [[[p|e] σ'] tr]; simpl in *;
    congruence.
Qed.

(** ** The Project Index is never read back *)

(** A call leaves every key outside the caller's write footprint alone. *)
Lemma serve_frame σ r k :
  ¬ writes_of (caller r) k → serve σ r !! k = σ !! k.
Proof.
  intros Hk. unfold serve, call.
  destruct (has ALLOWED_USERNAMES (caller r)); [|done].
  destruct (schema_ok (invoked r)); [|done].
  destruct (handler_writes (caller r) (ambient r) (invoked r) σ) as [_ Hframe].
  specialize (Hframe k Hk). unfold store_after in Hframe.
  by destruct (handler (caller r) (ambient r) (invoked r) σ) as [[[p|e] σ'] tr].
Qed.

Lemma serve_not_allowed σ r :
  has ALLOWED_USERNAMES (caller r) = false → serve σ r = σ.
Proof. intros H. unfold serve, call. by rewrite H. Qed.

Lemma serve_projectListKey σ r owner :
  has ALLOWED_USERNAMES owner = true →
  serve σ r !! projectListKey owner = σ !! projectListKey owner.
Proof.
  intros Howner.
  destruct (has ALLOWED_USERNAMES (caller r)) eqn:Hcaller.
  - apply serve_frame. by apply projectListKey_not_written.
  - by rewrite serve_not_allowed.
Qed.

Lemma run_projectListKey reqs σ owner :
  has ALLOWED_USERNAMES owner = true →
  run reqs σ !! projectListKey owner = σ !! projectListKey owner.
Proof.
  intros Howner. revert σ.
  induction reqs as [|r reqs IH]; intros σ; [done|].
  by rewrite run_cons, IH, serve_projectListKey.
Qed.

Lemma get_project_list_empty login σ :
  σ !! projectListKey login = None →
  get_project_list login σ = (Ok (PProjects []), σ, [EGet (projectListKey login)]).
Proof.
  intros H. unfold get_project_list, getProjectList, bind, KV_get. by rewrite H.
Qed.

(** On a typed store the cascade runs to its end. *)
Lemma delete_project_loop_ok login projectId todos σ :
  has ALLOWED_USERNAMES login = true →
  typed σ →
  ∃ σ1 tr, delete_project_loop login projectId todos σ = (Ok tt, σ1, tr) ∧ typed σ1.
Proof.
  intros Hallowed. revert σ.
  induction todos as [|todo rest IH]; intros σ Hσ; simpl.
  - by eexists _, _.
  - destruct (typed_idsAt login σ projectId Hallowed Hσ) as [ids Hids].
    erewrite bind_ok by (by apply deleteTodo_run).
    edestruct (IH (<[todoListKey login projectId := VIds (spliceOut ids (t_id todo))]> σ))
      as (σ1 & tr & -> & Hσ1).
    { apply typed_insert; [done|by constructor]. }
    by eexists _, _.
Qed.

(** On a typed store, the last thing [delete_project] does to the store of
    an existing project is the [put] under the quoted key. *)
Lemma delete_project_last_write login projectId σ :
  has ALLOWED_USERNAMES login = true →
  typed σ →
  is_Some (σ !! projectKey login projectId) →
  outcome (delete_project login projectId σ)
  = Ok (PMessage (projectDeleted projectId))
  ∧ last (writes (trace_of (delete_project login projectId σ)))
    = Some projectListKeyQuoted.
Proof.
  intros Hallowed Hσ [v Hv].
  destruct (typed_idsAt login σ projectId Hallowed Hσ) as [ids Hids].
  destruct (delete_project_loop_ok login projectId (resolve σ login ids) σ
              Hallowed Hσ) as (σ1 & tr & Hloop & Hσ1).
  assert (∃ σ' tr',
    delete_project login projectId σ
    = (Ok (PMessage (projectDeleted projectId)), σ', tr')
    ∧ last (writes tr') = Some projectListKeyQuoted) as (σ' & tr' & -> & Hlast).
  { eexists _, _. split.
    - unfold delete_project.
      eapply bind_run; [reflexivity|]. rewrite Hv.
      eapply bind_run.
      { apply getTodosByProject_resolve; [done|by apply typed_todoSlot]. }
      eapply bind_run; [exact Hloop|].
      eapply bind_run; [reflexivity|].
      eapply bind_run.
      { apply getProjectList_ids. unfold idsAt.
        by rewrite (typed_projectList login) by (by try apply typed_delete). }
      eapply bind_run; reflexivity.
    - unfold writes. rewrite !omap_app, !last_app. reflexivity. }
  done.
Qed.

(** C3: from the empty store, after any sequence of tool calls by any
    callers, [get_project_list] answers every caller for whom the tool
    exists with the empty sequence, and exists for no other caller.  The
    key [getProjectList] reads is absent and is not the quoted key; no
    handler run for any such caller, on any store, writes it;
    [createProject] writes the record key and the quoted key, and the last
    write of [delete_project] on an existing project goes to the quoted
    key. *)
Theorem get_project_list_always_empty reqs login amb :
  let σ := run reqs ∅ in
  call login amb Tool_get_project_list σ
  = (if has ALLOWED_USERNAMES login
     then (Reply (PProjects []), σ, [EGet (projectListKey login)])
     else (NoSuchTool, σ, []))
  ∧ (has ALLOWED_USERNAMES login = true →
     σ !! projectListKey login = None
     ∧ projectListKey login ≠ projectListKeyQuoted
     ∧ (∀ who amb' t σ',
          has ALLOWED_USERNAMES who = true →
          projectListKey login ∉ writes (trace_of (handler who amb' t σ')))
     ∧ (∀ name description,
          writes (trace_of (createProject login amb name description σ))
          = [projectKey login (randomUUID amb); projectListKeyQuoted])
     ∧ (∀ projectId,
          is_Some (σ !! projectKey login projectId) →
          last (writes (trace_of (delete_project login projectId σ)))
          = Some projectListKeyQuoted)).
Proof.
  intros σ.
  assert (has ALLOWED_USERNAMES login = true → σ !! projectListKey login = None)
    as Habsent.
  { intros H. unfold σ. by rewrite run_projectListKey. }
  split.
  - unfold call. destruct (has ALLOWED_USERNAMES login); [|done].
    simpl. by rewrite get_project_list_empty by auto.
  - intros H. split; [auto|]. split; [|split; [|split]].
    + intros Heq. apply (projectListKey_not_written login login H H).
      rewrite Heq. constructor.
    + intros who amb' t σ' Hwho Hin.
      apply (projectListKey_not_written login who H Hwho).
      by apply (handler_writes who amb' t σ').
    + intros name description.
      unfold createProject. unfold bind at 1, KV_put.
      erewrite (bind_ok (getProjectList login)); last first.
      { apply getProjectList_ids. unfold idsAt.
        rewrite lookup_insert_ne; [by rewrite Habsent|].
        intros Heq. apply (projectListKey_not_written login login H H).
        rewrite <- Heq. constructor. }
      reflexivity.
    + intros projectId Hproject.
      apply delete_project_last_write; [done| |done].
      apply run_typed, typed_empty.
Qed.

Lemma get_project_list_always_empty_witness :
  answer (call "ermao1688" (mkAmbient "u-9" "12:00" "12:00") Tool_get_project_list
            (run [mkRequest "ermao1688" (mkAmbient "u-1" "08:00" "08:00")
                    (Tool_createProject "Launch" (Some "v1"))] ∅))
  = Reply (PProjects [])
  ∧ run [mkRequest "ermao1688" (mkAmbient "u-1" "08:00" "08:00")
           (Tool_createProject "Launch" (Some "v1"))] ∅
    !! projectListKey "ermao1688" = None.
Proof.
  destruct (get_project_list_always_empty
              [mkRequest "ermao1688" (mkAmbient "u-1" "08:00" "08:00")
                 (Tool_createProject "Launch" (Some "v1"))]
              "ermao1688" (mkAmbient "u-9" "12:00" "12:00")) as [Hcall Hkey].
  split.
  - unfold answer. by rewrite Hcall.
  - apply Hkey. vm_compute. reflexivity.
Defined.

(** ** Isolation of owners *)

Lemma append_assoc (s1 s2 s3 : string) : (s1 +:+ s2) +:+ s3 = s1 +:+ s2 +:+ s3.
Proof.
  induction s1 as [|c s1 IH]; [done|].
  apply (f_equal (String c)) in IH. exact IH.
Qed.

Lemma append_empty_r (s : string) : s +:+ "" = s.
Proof.
  induction s as [|c s IH]; [done|].
  apply (f_equal (String c)) in IH. exact IH.
Qed.

Lemma reads_of_embeds login k : reads_of login k → embeds login k.
Proof.
  intros [|p|p|t]; unfold embeds, projectListKey, projectKey, todoListKey, todoKey.
  - by exists "project:user-", ":list".
  - exists ("project:" +:+ p +:+ ":user-"), "".
    by rewrite append_empty_r, !append_assoc.
  - exists ("project:" +:+ p +:+ ":user-"), ":todos". by rewrite !append_assoc.
  - by exists "todo:user-", (":" +:+ t).
Qed.

Lemma writes_of_embeds login k :
  writes_of login k → k ≠ projectListKeyQuoted → embeds login k.
Proof.
  intros [p|p|t|] Hk; [| | |done]; apply reads_of_embeds; constructor.
Qed.

Lemma embeds_chars login key c :
  embeds login key → c ∈ chars login → c ∈ chars key.
Proof.
  intros (pre & post & ->) Hc. rewrite !chars_app, !elem_of_app. auto.
Qed.

(** A call by another allowed-or-not caller leaves what [B] reads alone. *)
Lemma serve_other B σ r :
  has ALLOWED_USERNAMES B = true →
  caller r ≠ B →
  agree (reads_of B) (serve σ r) σ.
Proof.
  intros HB Hne k Hk.
  destruct (has ALLOWED_USERNAMES (caller r)) eqn:Hcaller.
  - apply serve_frame. intros Hw. by eapply (reads_writes_apart (caller r) B).
  - by rewrite serve_not_allowed.
Qed.

(** A call by [B] does the same on stores that agree on what [B] reads. *)
Lemma call_agree B amb t σ σ' :
  agree (reads_of B) σ σ' →
  answer (call B amb t σ) = answer (call B amb t σ')
  ∧ agree (reads_of B) (call B amb t σ).1.2 (call B amb t σ').1.2.
Proof.
  intros H. unfold call, answer.
  destruct (has ALLOWED_USERNAMES B); [|done].
  destruct (schema_ok t); [|done].
  destruct (handler_reads B amb t) as [_ Hlocal].
  specialize (Hlocal σ σ' H). unfold outcome, trace_of, store_after in Hlocal.
  destruct (handler B amb t σ) as [[[p|e] σ1] tr1],
    (handler B amb t σ') as [[[p'|e'] σ1'] tr1'];
    simpl in *; destruct Hlocal as (? & ? & ?); by simplify_eq.
Qed.

Lemma agree_trans R σ1 σ2 σ3 : agree R σ1 σ2 → agree R σ2 σ3 → agree R σ1 σ3.
Proof. intros H12 H23 k Hk. by rewrite H12, H23. Qed.

Lemma agree_sym R σ1 σ2 : agree R σ1 σ2 → agree R σ2 σ1.
Proof. intros H k Hk. by rewrite H. Qed.

Lemma run_purge_agree A B reqs σ σ' :
  has ALLOWED_USERNAMES B = true →
  A ≠ B →
  agree (reads_of B) σ σ' →
  agree (reads_of B) (run reqs σ) (run (purge A reqs) σ').
Proof.
  intros HB Hne. revert σ σ'.
  induction reqs as [|r reqs IH]; intros σ σ' H; [done|].
  rewrite run_cons. unfold purge. rewrite filter_cons.
  destruct (decide (caller r ≠ A)) as [HrA|HrA].
  - rewrite run_cons. apply IH.
    destruct (decide (caller r = B)) as [HrB|HrB].
    + unfold serve. rewrite HrB. by apply call_agree.
    + eapply agree_trans; [by apply serve_other|].
      eapply agree_trans; [exact H|]. by apply agree_sym, serve_other.
  - apply IH. eapply agree_trans; [|exact H].
    apply serve_other; [done|]. apply dec_stable in HrA. congruence.
Qed.

Lemma purge_all A reqs :
  Forall (λ r, caller r = A) reqs → purge A reqs = [].
Proof.
  induction 1 as [|r reqs Hr _ IH]; [done|].
  unfold purge in *. rewrite filter_cons, IH. by rewrite decide_False by auto.
Qed.

(** What holds of isolation: for owners [A ≠ B], what [get_project] and
    [get_project_list] answer to [B] after a sequence of calls is what they
    answer when [A]'s calls are struck from the sequence; after calls of
    [A] alone from the empty store, [B] finds no project under any id and
    lists none.  Every key a handler reads for an owner embeds the owner's
    login; of the keys it writes, all but the quoted key do. *)
Theorem owners_isolated A B :
  A ≠ B →
  (∀ reqs σ amb,
     (∀ projectId,
        answer (call B amb (Tool_get_project projectId) (run reqs σ))
        = answer (call B amb (Tool_get_project projectId) (run (purge A reqs) σ)))
     ∧ answer (call B amb Tool_get_project_list (run reqs σ))
       = answer (call B amb Tool_get_project_list (run (purge A reqs) σ)))
  ∧ (∀ reqs amb,
       Forall (λ r, caller r = A) reqs →
       (∀ projectId,
          answer (call B amb (Tool_get_project projectId) (run reqs ∅))
          = if has ALLOWED_USERNAMES B
            then Reply (PMessage (projectNotFound projectId)) else NoSuchTool)
       ∧ answer (call B amb Tool_get_project_list (run reqs ∅))
         = if has ALLOWED_USERNAMES B then Reply (PProjects []) else NoSuchTool)
  ∧ (∀ amb t σ k,
       k ∈ reads (trace_of (handler A amb t σ)) → embeds A k)
  ∧ (∀ amb t σ k,
       k ∈ writes (trace_of (handler A amb t σ)) →
       k ≠ projectListKeyQuoted → embeds A k).
Proof.
  intros Hne.
  assert (∀ reqs σ amb t,
            answer (call B amb t (run reqs σ))
            = answer (call B amb t (run (purge A reqs) σ))) as Hany.
  { intros reqs σ amb t. destruct (has ALLOWED_USERNAMES B) eqn:HB.
    - apply call_agree. by apply run_purge_agree.
    - unfold call. by rewrite HB. }
  split; [|split; [|split]].
  - intros reqs σ amb. split; [intros projectId|]; apply Hany.
  - intros reqs amb Hreqs. split; [intros projectId|];
      rewrite Hany, (purge_all A reqs Hreqs); unfold answer, call;
      by destruct (has ALLOWED_USERNAMES B).
  - intros amb t σ k Hk. apply reads_of_embeds.
    destruct (handler_reads A amb t) as [Hreads _]. by apply (Hreads σ).
  - intros amb t σ k Hk Hq. apply writes_of_embeds; [|done].
    destruct (handler_writes A amb t σ) as [Hwrites _]. by apply Hwrites.
Qed.

Lemma owners_isolated_witness :
  answer (call "hubiao1688" (mkAmbient "u-9" "12:00" "12:00") (Tool_get_project "u-1")
            (run [mkRequest "ermao1688" (mkAmbient "u-1" "08:00" "08:00")
                    (Tool_createProject "Launch" (Some "v1"))] ∅))
  = Reply (PMessage "Project with ID u-1 not found").
Proof.
  assert ("ermao1688" ≠ "hubiao1688") as Hne by discriminate.
  destruct (owners_isolated "ermao1688" "hubiao1688" Hne) as [H _].
  destruct (H [mkRequest "ermao1688" (mkAmbient "u-1" "08:00" "08:00")
                 (Tool_createProject "Launch" (Some "v1"))]
              ∅ (mkAmbient "u-9" "12:00" "12:00")) as [Hget _].
  rewrite Hget. vm_compute. reflexivity.
Defined.

(** Not every written key embeds the login: the key [createProject] puts
    the index under does not. *)
Lemma written_key_without_login :
  ¬ (∀ login amb t σ k,
       k ∈ writes (trace_of (handler login amb t σ)) → embeds login k).
Proof.
  intros H.
  specialize (H "ermao1688" (mkAmbient "u-1" "08:00" "08:00")
                (Tool_createProject "Launch" None) ∅ projectListKeyQuoted).
  assert (embeds "ermao1688" projectListKeyQuoted) as Hembeds.
  { apply H. vm_compute. apply list_elem_of_In. simpl. auto. }
  apply (embeds_chars _ _ (Ascii.ascii_of_nat 56)) in Hembeds.
  - vm_compute in Hembeds. apply list_elem_of_In in Hembeds. simpl in Hembeds.
    intuition discriminate.
  - vm_compute. apply list_elem_of_In. simpl. auto 10.
Qed.

Lemma projectListKeyQuoted_embeds_no_allowed login :
  has ALLOWED_USERNAMES login = true → ¬ embeds login projectListKeyQuoted.
Proof.
  intros Hlogin Hembeds.
  apply (embeds_chars _ _ (Ascii.ascii_of_nat 56)) in Hembeds.
  - vm_compute in Hembeds. apply list_elem_of_In in Hembeds. simpl in Hembeds.
    intuition discriminate.
  - apply allowed_cases in Hlogin as [-> | ->];
      vm_compute; apply list_elem_of_In; simpl; auto 12.
Qed.

(** C9 at the code: the Project Index is written under a key that embeds
    no login and is the same key for every owner.  [createProject] for
    [ermao1688] and then for [hubiao1688] both put the quoted key, which
    embeds neither login, and the second put replaces the first owner's
    list by its own.  What the second owner is answered is untouched all
    the same: no handler reads the quoted key, so [get_project] on the
    first owner's project id answers not found and [get_project_list]
    answers with the empty sequence. *)
Theorem project_index_key_shared :
  let first :=
    call "ermao1688" (mkAmbient "u-1" "08:00" "08:00")
      (Tool_createProject "Launch" None) ∅ in
  let second :=
    call "hubiao1688" (mkAmbient "u-2" "09:00" "09:00")
      (Tool_createProject "Retro" None) first.1.2 in
  writes first.2 = [projectKey "ermao1688" "u-1"; projectListKeyQuoted]
  ∧ writes second.2 = [projectKey "hubiao1688" "u-2"; projectListKeyQuoted]
  ∧ ¬ embeds "ermao1688" projectListKeyQuoted
  ∧ ¬ embeds "hubiao1688" projectListKeyQuoted
  ∧ first.1.2 !! projectListKeyQuoted = Some (VIds ["u-1"])
  ∧ second.1.2 !! projectListKeyQuoted = Some (VIds ["u-2"])
  ∧ second.1.2 !! projectKey "ermao1688" "u-1"
    = Some (VProject (mkProject "u-1" "Launch" "" "08:00" "08:00"))
  ∧ answer (call "hubiao1688" (mkAmbient "u-3" "10:00" "10:00")
              (Tool_get_project "u-1") second.1.2)
    = Reply (PMessage (projectNotFound "u-1"))
  ∧ answer (call "hubiao1688" (mkAmbient "u-3" "10:00" "10:00")
              Tool_get_project_list second.1.2)
    = Reply (PProjects []).
Proof.
  intros first second.
  split; [by vm_compute|]. split; [by vm_compute|].
  split; [by apply projectListKeyQuoted_embeds_no_allowed|].
  split; [by apply projectListKeyQuoted_embeds_no_allowed|].
  vm_compute. repeat split; reflexivity.
Qed.

(** ** Deleting a project *)

(** C1 at the code: [delete_project] never touches a Todo record, so
    [get_todo] answers after it what it answered before.  On the store with
    project [p], its index [[t]] and the record of [t]: the project is
    deleted and [list_todos] throws, but [get_todo t] still answers with the
    record, and the Todo Index key is still there, holding the empty
    list. *)
Theorem delete_project_keeps_todo_records :
  (∀ login projectId σ todoId,
     store_after (delete_project login projectId σ) !! todoKey login todoId
     = σ !! todoKey login todoId
     ∧ outcome (get_todo login todoId (store_after (delete_project login projectId σ)))
       = outcome (get_todo login todoId σ))
  ∧ (let T := mkTodo "t" "p" "Write spec" "" pending high "09:00" "09:00" in
     let σ : KVNamespace :=
       {[ projectKey "ermao1688" "p"
            := VProject (mkProject "p" "Launch" "v1" "08:00" "08:00");
          todoListKey "ermao1688" "p" := VIds ["t"];
          todoKey "ermao1688" "t" := VTodo T ]} in
     let σ' := store_after (delete_project "ermao1688" "p" σ) in
     outcome (delete_project "ermao1688" "p" σ) = Ok (PMessage (projectDeleted "p"))
     ∧ outcome (list_todos "ermao1688" "p" None σ') = Throw (projectNotFound "p")
     ∧ outcome (get_todo "ermao1688" "t" σ') = Ok (PTodo T)
     ∧ σ' !! todoListKey "ermao1688" "p" = Some (VIds [])).
Proof.
  split.
  - intros login projectId σ todoId.
    assert (store_after (delete_project login projectId σ) !! todoKey login todoId
            = σ !! todoKey login todoId) as Hkept.
    { apply (delete_project_writes login projectId σ).
      intros [H|[H|H]]; revert H.
      - apply todoKey_not_todoListKey.
      - apply todoKey_not_projectKey.
      - apply todoKey_not_projectListKeyQuoted. }
    split; [exact Hkept|].
    unfold get_todo, bind, KV_get, outcome; simpl. rewrite Hkept.
    by destruct (σ !! todoKey login todoId) as [[ | | ]|].
  - vm_compute. repeat split; reflexivity.
Qed.

(** ** Creating a project *)

(** C2 at the code: a [createProject] call leaves the key that
    [getProjectList] reads as it was.  From the empty store, after
    [createProject] the record is stored, and [get_project_list] answers
    with the empty sequence. *)
Theorem createProject_not_listed :
  (∀ login amb name description σ,
     (call login amb (Tool_createProject name description) σ).1.2
       !! projectListKey login
     = σ !! projectListKey login)
  ∧ (let P := mkProject "u-1" "Launch" "v1" "08:00" "08:01" in
     let made :=
       call "ermao1688" (mkAmbient "u-1" "08:00" "08:01")
         (Tool_createProject "Launch" (Some "v1")) ∅ in
     answer made = Reply (PProject P)
     ∧ made.1.2 !! projectKey "ermao1688" "u-1" = Some (VProject P)
     ∧ made.1.2 !! projectListKeyQuoted = Some (VIds ["u-1"])
     ∧ answer (call "ermao1688" (mkAmbient "u-2" "09:00" "09:00")
                 Tool_get_project_list made.1.2)
       = Reply (PProjects [])).
Proof.
  split.
  - intros login amb name description σ.
    destruct (has ALLOWED_USERNAMES login) eqn:Hallowed.
    + apply (serve_frame σ (mkRequest login amb (Tool_createProject name description))).
      simpl. by apply projectListKey_not_written.
    + unfold call. by rewrite Hallowed.
  - vm_compute. repeat split; reflexivity.
Qed.

(** * Further properties of the handlers *)

(** ** The tools that only read *)

Lemma bind_steps {A B} (m : M A) (f : A → M B) σ a σ1 tr1 r σ2 tr2 tr :
  m σ = (Ok a, σ1, tr1) →
  f a σ1 = (r, σ2, tr2) →
  tr = tr1 ++ tr2 →
  bind m f σ = (r, σ2, tr).
Proof. intros Hm Hf ->. by eapply bind_run. Qed.

Lemma writes_nowhere {A} (m : M A) σ :
  writes_in (λ _, False) m →
  store_after (m σ) = σ ∧ writes (trace_of (m σ)) = [].
Proof.
  intros Hm. destruct (Hm σ) as [Htrace Hframe]. split.
  - apply map_eq. intros k. apply Hframe. tauto.
  - destruct (writes (trace_of (m σ))) as [|k l]; [done|].
    destruct (Htrace k). apply elem_of_cons. by left.
Qed.

Section ReadOnlyTools.
Variable login : string.

Hint Resolve asIds_writes asTodo_writes asProject_writes getProjectList_writes
  getTodoList_writes getTodosByProject_loop_writes getTodosByProject_writes
  get_project_list_loop_writes : footprint.

Lemma get_project_list_writes_nowhere :
  writes_in (λ _, False) (get_project_list login).
Proof. unfold get_project_list. footprint. Qed.

Lemma get_project_writes_nowhere projectId :
  writes_in (λ _, False) (get_project login projectId).
Proof. unfold get_project. footprint. Qed.

Lemma get_todo_writes_nowhere todoId :
  writes_in (λ _, False) (get_todo login todoId).
Proof. unfold get_todo. footprint. Qed.

Lemma list_todos_writes_nowhere projectId status :
  writes_in (λ _, False) (list_todos login projectId status).
Proof. unfold list_todos. cbv zeta. footprint. Qed.

End ReadOnlyTools.

(** X1: [get_project_list], [get_project], [get_todo] and [list_todos]
    leave the store exactly as it was and issue no [put] or [delete], on
    every store and whether they answer or throw; asked twice in a row,
    each of them answers the same. *)
Theorem read_tools_write_nothing login σ :
  (store_after (get_project_list login σ) = σ
   ∧ writes (trace_of (get_project_list login σ)) = []
   ∧ get_project_list login (store_after (get_project_list login σ))
     = get_project_list login σ)
  ∧ (∀ projectId,
       store_after (get_project login projectId σ) = σ
       ∧ writes (trace_of (get_project login projectId σ)) = []
       ∧ get_project login projectId (store_after (get_project login projectId σ))
         = get_project login projectId σ)
  ∧ (∀ todoId,
       store_after (get_todo login todoId σ) = σ
       ∧ writes (trace_of (get_todo login todoId σ)) = []
       ∧ get_todo login todoId (store_after (get_todo login todoId σ))
         = get_todo login todoId σ)
  ∧ (∀ projectId status,
       store_after (list_todos login projectId status σ) = σ
       ∧ writes (trace_of (list_todos login projectId status σ)) = []
       ∧ list_todos login projectId status
           (store_after (list_todos login projectId status σ))
         = list_todos login projectId status σ).
Proof.
  split; [|split; [|split]]; intros.
  - destruct (writes_nowhere _ σ (get_project_list_writes_nowhere login)) as [-> ->].
    done.
  - destruct (writes_nowhere _ σ (get_project_writes_nowhere login projectId))
      as [-> ->]. done.
  - destruct (writes_nowhere _ σ (get_todo_writes_nowhere login todoId)) as [-> ->].
    done.
  - destruct (writes_nowhere _ σ (list_todos_writes_nowhere login projectId status))
      as [-> ->]. done.
Qed.

(** ** Listing projects and reading one *)

Lemma get_project_list_loop_resolve login σ ids projects :
  Forall (projectSlot σ login) ids →
  get_project_list_loop login ids projects σ
  = (Ok (projects ++ resolveProjects σ login ids), σ,
     (λ id, EGet (projectKey login id)) <$> ids).
Proof.
  intros Hslots. revert projects.
  induction Hslots as [|id ids Hid _ IH]; intros projects.
  - unfold resolveProjects; simpl. by rewrite app_nil_r.
  - unfold resolveProjects, projectAt, projectSlot in *; simpl.
    unfold bind at 1, KV_get.
    destruct (σ !! projectKey login id) as [[ p | | ]|]; try done; simpl.
    + unfold bind at 1; simpl. rewrite IH. by rewrite <- app_assoc.
    + by rewrite IH.
Qed.

(** X2: when the key [getProjectList] reads holds an index,
    [get_project_list] answers with the projects whose records exist, in
    index order, skipping the ids without a record; it reads the index and
    then each listed record, and writes nothing. *)
Theorem get_project_list_resolves login σ ids :
  idsAt σ (projectListKey login) = Some ids →
  Forall (projectSlot σ login) ids →
  get_project_list login σ
  = (Ok (PProjects (resolveProjects σ login ids)), σ,
     EGet (projectListKey login) :: ((λ id, EGet (projectKey login id)) <$> ids)).
Proof.
  intros Hids Hslots. unfold get_project_list.
  eapply bind_steps; [by apply getProjectList_ids| |reflexivity].
  eapply bind_steps; [by apply get_project_list_loop_resolve|reflexivity|].
  by rewrite app_nil_r.
Qed.

Lemma get_project_list_resolves_witness :
  let a := mkProject "a" "Launch" "v1" "08:00" "08:00" in
  let b := mkProject "b" "Retro" "" "09:00" "09:00" in
  outcome (get_project_list "ermao1688"
             {[ projectListKey "ermao1688" := VIds ["a"; "gone"; "b"];
                projectKey "ermao1688" "a" := VProject a;
                projectKey "ermao1688" "b" := VProject b ]})
  = Ok (PProjects [a; b]).
Proof.
  intros a b.
  rewrite (get_project_list_resolves "ermao1688" _ ["a"; "gone"; "b"]).
  - vm_compute. reflexivity.
  - vm_compute. reflexivity.
  - repeat constructor; vm_compute; exact I.
Defined.

Lemma get_project_run login projectId σ P ids :
  σ !! projectKey login projectId = Some (VProject P) →
  idsAt σ (todoListKey login projectId) = Some ids →
  Forall (todoSlot σ login) ids →
  get_project login projectId σ
  = (Ok (PProjectTodos P (resolve σ login ids)), σ,
     EGet (projectKey login projectId) :: EGet (todoListKey login projectId)
       :: ((λ id, EGet (todoKey login id)) <$> ids)).
Proof.
  intros HP Hids Hslots. unfold get_project.
  eapply bind_steps; [reflexivity| |reflexivity]. rewrite HP.
  eapply bind_steps; [reflexivity| |reflexivity].
  eapply bind_steps; [by apply getTodosByProject_resolve|reflexivity|].
  by rewrite app_nil_r.
Qed.

(** X3: on an existing project [get_project] answers with the Project
    record together with the todos its Todo Index resolves to, in index
    order, skipping ids without a record (an absent index gives no todos);
    it writes nothing. *)
Theorem get_project_found login projectId σ P ids :
  σ !! projectKey login projectId = Some (VProject P) →
  idsAt σ (todoListKey login projectId) = Some ids →
  Forall (todoSlot σ login) ids →
  get_project login projectId σ
  = (Ok (PProjectTodos P (resolve σ login ids)), σ,
     EGet (projectKey login projectId) :: EGet (todoListKey login projectId)
       :: ((λ id, EGet (todoKey login id)) <$> ids)).
Proof.
  intros HP Hids Hslots. unfold get_project.
  eapply bind_steps; [reflexivity| |reflexivity]. rewrite HP.
  eapply bind_steps; [reflexivity| |reflexivity].
  eapply bind_steps; [by apply getTodosByProject_resolve|reflexivity|].
  by rewrite app_nil_r.
Qed.

Lemma get_project_found_witness :
  let P := mkProject "p" "Launch" "v1" "08:00" "08:00" in
  let T := mkTodo "t" "p" "Write spec" "" pending high "09:00" "09:00" in
  outcome (get_project "ermao1688" "p"
             {[ projectKey "ermao1688" "p" := VProject P;
                todoListKey "ermao1688" "p" := VIds ["t"; "gone"];
                todoKey "ermao1688" "t" := VTodo T ]})
  = Ok (PProjectTodos P [T])
  ∧ outcome (get_project "ermao1688" "p" {[ projectKey "ermao1688" "p" := VProject P ]})
    = Ok (PProjectTodos P []).
Proof.
  intros P T. split.
  - rewrite (get_project_found "ermao1688" "p" _ P ["t"; "gone"]).
    + vm_compute. reflexivity.
    + vm_compute. reflexivity.
    + vm_compute. reflexivity.
    + repeat constructor; vm_compute; exact I.
  - rewrite (get_project_found "ermao1688" "p" _ P []).
    + vm_compute. reflexivity.
    + vm_compute. reflexivity.
    + vm_compute. reflexivity.
    + constructor.
Defined.

(** ** How the todo tools compose *)

Lemma length_chars_append s1 s2 :
  length (chars (s1 +:+ s2)) = length (chars s1) + length (chars s2).
Proof. by rewrite chars_app, length_app. Qed.

Lemma append_inv_head (s t1 t2 : string) : s +:+ t1 = s +:+ t2 → t1 = t2.
Proof. apply (inj (String.append s)). Qed.

(** A project's record key is not the key of its own Todo Index. *)
Lemma projectKey_not_own_todoListKey login projectId :
  projectKey login projectId ≠ todoListKey login projectId.
Proof.
  unfold projectKey, todoListKey. intros H.
  do 3 apply append_inv_head in H.
  apply (f_equal (λ s, length (chars s))) in H.
  rewrite length_chars_append in H. simpl in H. lia.
Qed.

Lemma todoKey_ne login id id' : id ≠ id' → todoKey login id ≠ todoKey login id'.
Proof. intros Hne H. by apply Hne, (todoKey_inj login). Qed.

Lemma resolve_ext login σ σ' ids :
  (∀ id, id ∈ ids → σ' !! todoKey login id = σ !! todoKey login id) →
  resolve σ' login ids = resolve σ login ids.
Proof.
  intros H. unfold resolve. apply list_omap_ext, Forall2_same_length_lookup_2.
  - done.
  - intros i id id' Hid Hid'. simplify_eq. unfold todoAt.
    by rewrite H by (by eapply list_elem_of_lookup_2).
Qed.

Lemma todoSlot_ext login σ σ' ids :
  (∀ id, id ∈ ids → σ' !! todoKey login id = σ !! todoKey login id) →
  Forall (todoSlot σ login) ids → Forall (todoSlot σ' login) ids.
Proof.
  intros H. rewrite !Forall_forall. intros Hslots id Hid.
  specialize (Hslots id Hid). unfold todoSlot in *. by rewrite H.
Qed.

Lemma list_todos_run login projectId status σ v ids :
  σ !! projectKey login projectId = Some v →
  idsAt σ (todoListKey login projectId) = Some ids →
  Forall (todoSlot σ login) ids →
  list_todos login projectId status σ
  = (Ok (PTodos match status with
                | Some (only s) => filter (λ t, t_status t = s) (resolve σ login ids)
                | _ => resolve σ login ids
                end), σ,
     EGet (projectKey login projectId) :: EGet (todoListKey login projectId)
       :: ((λ id, EGet (todoKey login id)) <$> ids)).
Proof.
  intros Hproject Hids Hslots. unfold list_todos.
  eapply bind_steps; [reflexivity| |reflexivity]. rewrite Hproject.
  eapply bind_steps; [by apply getTodosByProject_resolve|reflexivity|].
  by rewrite app_nil_r.
Qed.

Lemma resolve_app login σ ids1 ids2 :
  resolve σ login (ids1 ++ ids2) = resolve σ login ids1 ++ resolve σ login ids2.
Proof. unfold resolve. apply omap_app. Qed.

(** X4: after a successful [create_todo] with an id that is not yet in the
    project's Todo Index, [list_todos] on the project answers with the
    todos listed before followed by the new one; filtered by a status, the
    new todo shows under [pending] and under no other status. *)
Theorem create_todo_then_list_todos
    login amb projectId title description priority σ v ids :
  σ !! projectKey login projectId = Some v →
  idsAt σ (todoListKey login projectId) = Some ids →
  Forall (todoSlot σ login) ids →
  randomUUID amb ∉ ids →
  ∃ todo,
    outcome (create_todo login amb projectId title description priority σ)
    = Ok (PTodo todo)
    ∧ let σ' := store_after
                  (create_todo login amb projectId title description priority σ) in
      outcome (list_todos login projectId None σ')
      = Ok (PTodos (resolve σ login ids ++ [todo]))
      ∧ ∀ s, outcome (list_todos login projectId (Some (only s)) σ')
             = Ok (PTodos (filter (λ t, t_status t = s) (resolve σ login ids)
                           ++ if decide (s = pending) then [todo] else [])).
Proof.
  intros Hproject Hids Hslots Hfresh.
  pose proof (create_todo_run login amb projectId title description priority
                σ v ids Hproject Hids) as Hrun.
  simpl in Hrun. rewrite Hrun. clear Hrun.
  set (todo := newTodo amb projectId title description priority).
  exists todo. split; [done|].
  unfold outcome, store_after; simpl.
  set (σ' := <[todoListKey login projectId := VIds (ids ++ [randomUUID amb])]>
               (<[todoKey login (randomUUID amb) := VTodo todo]> σ)).
  assert (∀ id, σ' !! todoKey login id
                = <[todoKey login (randomUUID amb) := VTodo todo]> σ !! todoKey login id)
    as Htodo.
  { intros id. unfold σ'. rewrite lookup_insert_ne; [done|].
    apply not_eq_sym, todoKey_not_todoListKey. }
  assert (∀ id, id ∈ ids → σ' !! todoKey login id = σ !! todoKey login id) as Hold.
  { intros id Hid. rewrite Htodo, lookup_insert_ne; [done|].
    apply todoKey_ne. intros Heq. by rewrite Heq in Hfresh. }
  assert (resolve σ' login (ids ++ [randomUUID amb]) = resolve σ login ids ++ [todo])
    as Hresolve.
  { rewrite resolve_app, (resolve_ext login σ σ' ids Hold). f_equal.
    unfold resolve, todoAt; simpl. by rewrite Htodo, lookup_insert_eq. }
  assert (∀ status, list_todos login projectId status σ'
    = (Ok (PTodos match status with
                  | Some (only s) =>
                      filter (λ t, t_status t = s)
                        (resolve σ' login (ids ++ [randomUUID amb]))
                  | _ => resolve σ' login (ids ++ [randomUUID amb])
                  end), σ',
       EGet (projectKey login projectId) :: EGet (todoListKey login projectId)
         :: ((λ id, EGet (todoKey login id)) <$> (ids ++ [randomUUID amb]))))
    as Hlist.
  { intros status. apply (list_todos_run _ _ _ _ v).
    - unfold σ'. rewrite lookup_insert_ne
        by apply not_eq_sym, projectKey_not_own_todoListKey.
      rewrite lookup_insert_ne by apply todoKey_not_projectKey. done.
    - unfold σ', idsAt. by rewrite lookup_insert_eq.
    - apply Forall_app. split; [by apply (todoSlot_ext login σ)|].
      constructor; [|constructor]. unfold todoSlot.
      by rewrite Htodo, lookup_insert_eq. }
  split.
  - by rewrite Hlist, Hresolve.
  - intros s. rewrite Hlist, Hresolve. simpl.
    rewrite filter_app. do 3 f_equal.
    rewrite filter_cons, filter_nil. simpl.
    destruct (decide (pending = s)), (decide (s = pending)); congruence.
Qed.

Lemma create_todo_then_list_todos_witness :
  let a := mkTodo "a" "p" "one" "" completed medium "09:00" "09:00" in
  let σ : KVNamespace :=
    {[ projectKey "ermao1688" "p" := VProject (mkProject "p" "Launch" "v1" "08:00" "08:00");
       todoListKey "ermao1688" "p" := VIds ["a"];
       todoKey "ermao1688" "a" := VTodo a ]} in
  let made := create_todo "ermao1688" (mkAmbient "b" "10:00" "10:01") "p" "two"
                None None σ in
  outcome (list_todos "ermao1688" "p" None (store_after made))
  = Ok (PTodos [a; mkTodo "b" "p" "two" "" pending medium "10:00" "10:01"]).
Proof.
  intros a σ made.
  destruct (create_todo_then_list_todos "ermao1688" (mkAmbient "b" "10:00" "10:01")
              "p" "two" None None σ
              (VProject (mkProject "p" "Launch" "v1" "08:00" "08:00")) ["a"])
    as (todo & Hmade & Hlist & _).
  - vm_compute. reflexivity.
  - vm_compute. reflexivity.
  - repeat constructor; vm_compute; exact I.
  - intros Hin. apply list_elem_of_In in Hin. simpl in Hin.
    destruct Hin as [Hin|[]]. discriminate Hin.
  - simpl in Hlist. fold σ made in Hlist. rewrite Hlist.
    vm_compute in Hmade. injection Hmade as <-. vm_compute. reflexivity.
Defined.

(** The record [update_todo] writes back. *)
Lemma update_todo_run login amb todoId title description status priority σ T :
  σ !! todoKey login todoId = Some (VTodo T) →
  let T' := {| t_id := t_id T;
               t_projectId := t_projectId T;
               t_title := title;
               t_description := default (t_description T) description;
               t_status := default (t_status T) status;
               t_priority := default (t_priority T) priority;
               t_createdAt := t_createdAt T;
               t_updatedAt := now1 amb |} in
  update_todo login amb todoId title description status priority σ
  = (Ok (PTodo T'), <[todoKey login todoId := VTodo T']> σ,
     [EGet (todoKey login todoId); EPut (todoKey login todoId) (VTodo T')]).
Proof. intros H. unfold update_todo, bind, KV_get, KV_put. by rewrite H. Qed.

(** X5: after [update_todo] on an existing todo, [get_todo] with the same
    id answers with exactly the record [update_todo] answered with, every
    other key of the store holds what it held, and [list_todos] on the
    todo's project shows the updated record in the place of the old one. *)
Theorem update_todo_then_get_todo
    login amb todoId title description status priority σ T :
  σ !! todoKey login todoId = Some (VTodo T) →
  ∃ T',
    outcome (update_todo login amb todoId title description status priority σ)
    = Ok (PTodo T')
    ∧ let σ' := store_after
                  (update_todo login amb todoId title description status priority σ) in
      get_todo login todoId σ' = (Ok (PTodo T'), σ', [EGet (todoKey login todoId)])
      ∧ (∀ k, k ≠ todoKey login todoId → σ' !! k = σ !! k)
      ∧ ∀ ids,
          resolve σ' login ids
          = omap (λ id, if decide (id = todoId) then Some T' else todoAt σ login id) ids.
Proof.
  intros HT.
  pose proof (update_todo_run login amb todoId title description status priority
                σ T HT) as Hrun.
  simpl in Hrun. rewrite Hrun. clear Hrun. unfold outcome, store_after; simpl.
  eexists. split; [reflexivity|]. split; [|split].
  - unfold get_todo, bind, KV_get. by rewrite lookup_insert_eq.
  - intros k Hk. by rewrite lookup_insert_ne.
  - intros ids. unfold resolve. apply list_omap_ext, Forall2_same_length_lookup_2.
    + done.
    + intros i id id' Hid Hid'. rewrite Hid in Hid'. injection Hid' as <-.
      unfold todoAt. destruct (decide (id = todoId)) as [->|Hne].
      * by rewrite lookup_insert_eq.
      * by rewrite lookup_insert_ne by (by apply todoKey_ne).
Qed.

Lemma update_todo_then_get_todo_witness :
  let σ : KVNamespace :=
    {[ todoKey "ermao1688" "t"
       := VTodo (mkTodo "t" "p" "Write spec" "draft" pending high "09:00" "09:00") ]} in
  outcome (get_todo "ermao1688" "t"
             (store_after (update_todo "ermao1688" (mkAmbient "u" "10:00" "10:00") "t"
                             "Write the spec" None (Some completed) None σ)))
  = Ok (PTodo (mkTodo "t" "p" "Write the spec" "draft" completed high "09:00" "10:00")).
Proof.
  intros σ.
  destruct (update_todo_then_get_todo "ermao1688" (mkAmbient "u" "10:00" "10:00") "t"
              "Write the spec" None (Some completed) None σ
              (mkTodo "t" "p" "Write spec" "draft" pending high "09:00" "09:00"))
    as (T' & Hupdate & Hget & _).
  - vm_compute. reflexivity.
  - simpl in Hget. rewrite Hget. vm_compute in Hupdate. injection Hupdate as <-.
    reflexivity.
Defined.

(** X6: after [delete_todo] on an existing todo, the record is gone
    ([get_todo] throws and so does a second [delete_todo], which changes
    nothing), the Todo Index of the record's project holds no occurrence of
    the id, every other key holds what it held, and [list_todos] on that
    project answers with the todos of the remaining ids. *)
Theorem delete_todo_then login todoId σ T ids :
  σ !! todoKey login todoId = Some (VTodo T) →
  idsAt σ (todoListKey login (t_projectId T)) = Some ids →
  outcome (delete_todo login todoId σ) = Ok (PMessage (todoDeleted todoId))
  ∧ let σ' := store_after (delete_todo login todoId σ) in
    get_todo login todoId σ'
    = (Throw (todoNotFound todoId), σ', [EGet (todoKey login todoId)])
    ∧ delete_todo login todoId σ'
      = (Throw (todoNotFound todoId), σ', [EGet (todoKey login todoId)])
    ∧ σ' !! todoListKey login (t_projectId T)
      = Some (VIds (filter (λ id, id ≠ todoId) ids))
    ∧ (∀ k, k ≠ todoKey login todoId → k ≠ todoListKey login (t_projectId T) →
            σ' !! k = σ !! k)
    ∧ ∀ v, σ !! projectKey login (t_projectId T) = Some v →
           Forall (todoSlot σ login) ids →
           outcome (list_todos login (t_projectId T) None σ')
           = Ok (PTodos (resolve σ login (filter (λ id, id ≠ todoId) ids))).
Proof.
  intros HT Hids. rewrite (delete_todo_run login todoId σ T ids HT Hids).
  unfold outcome, store_after; simpl. split; [done|].
  set (σ' := delete (todoKey login todoId)
               (<[todoListKey login (t_projectId T)
                  := VIds (filter (λ id, id ≠ todoId) ids)]> σ)).
  assert (σ' !! todoKey login todoId = None) as Hgone
    by (unfold σ'; apply lookup_delete_eq).
  assert (∀ k, k ≠ todoKey login todoId → k ≠ todoListKey login (t_projectId T) →
               σ' !! k = σ !! k) as Hframe.
  { intros k Hk1 Hk2. unfold σ'.
    rewrite lookup_delete_ne by done. by rewrite lookup_insert_ne. }
  assert (σ' !! todoListKey login (t_projectId T)
          = Some (VIds (filter (λ id, id ≠ todoId) ids))) as Hindex.
  { unfold σ'. rewrite lookup_delete_ne by apply todoKey_not_todoListKey.
    apply lookup_insert_eq. }
  split; [|split; [|split; [|split]]]; try done.
  - unfold get_todo, bind, KV_get. by rewrite Hgone.
  - unfold delete_todo, bind, KV_get. by rewrite Hgone.
  - intros v Hproject Hslots.
    assert (∀ id, id ∈ filter (λ id, id ≠ todoId) ids →
                  σ' !! todoKey login id = σ !! todoKey login id) as Hkept.
    { intros id [Hne _]%list_elem_of_filter. apply Hframe.
      - by apply todoKey_ne.
      - apply todoKey_not_todoListKey. }
    rewrite (list_todos_run login (t_projectId T) None σ' v
               (filter (λ id, id ≠ todoId) ids)).
    + simpl. by rewrite (resolve_ext login σ σ').
    + rewrite Hframe; [done|apply not_eq_sym, todoKey_not_projectKey|
                       apply projectKey_not_own_todoListKey].
    + unfold idsAt. by rewrite Hindex.
    + apply (todoSlot_ext login σ σ'); [done|].
      apply Forall_forall. intros id [_ Hid]%list_elem_of_filter.
      by eapply Forall_forall in Hslots.
Qed.

Lemma delete_todo_then_witness :
  let a := mkTodo "a" "p" "one" "" completed medium "09:00" "09:00" in
  let b := mkTodo "b" "p" "two" "" pending medium "09:01" "09:01" in
  let σ : KVNamespace :=
    {[ projectKey "ermao1688" "p" := VProject (mkProject "p" "Launch" "v1" "08:00" "08:00");
       todoListKey "ermao1688" "p" := VIds ["a"; "b"];
       todoKey "ermao1688" "a" := VTodo a;
       todoKey "ermao1688" "b" := VTodo b ]} in
  let σ' := store_after (delete_todo "ermao1688" "a" σ) in
  outcome (get_todo "ermao1688" "a" σ') = Throw "Todo with ID a not found"
  ∧ outcome (list_todos "ermao1688" "p" None σ') = Ok (PTodos [b]).
Proof.
  intros a b σ σ'.
  destruct (delete_todo_then "ermao1688" "a" σ a ["a"; "b"])
    as (_ & Hget & _ & _ & _ & Hlist).
  - vm_compute. reflexivity.
  - vm_compute. reflexivity.
  - simpl in Hget, Hlist. fold σ' in Hget, Hlist. split.
    + by rewrite Hget.
    + rewrite (Hlist (VProject (mkProject "p" "Launch" "v1" "08:00" "08:00"))).
      * vm_compute. reflexivity.
      * vm_compute. reflexivity.
      * repeat constructor; vm_compute; exact I.
Defined.

(** ** Keys of any login *)

Lemma has_pair_app a b l1 l2 : has_pair a b (l1 ++ a :: b :: l2) = true.
Proof.
  assert (has_pair a b (a :: b :: l2) = true) as Hhere.
  { simpl. rewrite (bool_decide_eq_true_2 (a = a)) by done.
    by rewrite (bool_decide_eq_true_2 (b = b)) by done. }
  induction l1 as [|x l1 IH]; [exact Hhere|].
  destruct l1 as [|y l1].
  - change (has_pair a b ([x] ++ a :: b :: l2))
      with ((bool_decide (x = a) && bool_decide (a = b))
            || has_pair a b (a :: b :: l2)).
    rewrite Hhere. apply orb_true_r.
  - change (has_pair a b ((x :: y :: l1) ++ a :: b :: l2))
      with ((bool_decide (x = a) && bool_decide (y = b))
            || has_pair a b ((y :: l1) ++ a :: b :: l2)).
    rewrite IH. apply orb_true_r.
Qed.

(** No project record key is the quoted key: in the quoted key no colon is
    followed by a [u]. *)
Lemma projectKey_not_projectListKeyQuoted login projectId :
  projectKey login projectId ≠ projectListKeyQuoted.
Proof.
  unfold projectKey, projectListKeyQuoted. intros H.
  change "project:user-${this.props!.login}:list"
    with ("project:" +:+ "user-${this.props!.login}:list") in H.
  apply append_inv_head in H.
  apply (f_equal chars) in H. rewrite !chars_app in H.
  apply (f_equal (has_pair (Ascii.ascii_of_nat 58) (Ascii.ascii_of_nat 117))) in H.
  change (chars ":user-") with
    (Ascii.ascii_of_nat 58 :: Ascii.ascii_of_nat 117 :: chars "ser-") in H.
  rewrite <- !app_comm_cons in H.
  rewrite has_pair_app in H. vm_compute in H. discriminate H.
Qed.

Lemma todoListKey_not_projectListKeyQuoted login projectId :
  todoListKey login projectId ≠ projectListKeyQuoted.
Proof. intros H. keys_differ H. Qed.

Lemma todoListKey_not_projectListKey login projectId login' :
  todoListKey login projectId ≠ projectListKey login'.
Proof. intros H. keys_differ H. Qed.

(** The key [getProjectList] reads is no project record key of the same
    login. *)
Lemma projectKey_not_own_projectListKey login projectId :
  projectKey login projectId ≠ projectListKey login.
Proof.
  unfold projectKey, projectListKey. intros H.
  change "project:user-" with ("project:" +:+ "user-") in H.
  rewrite append_assoc in H. apply append_inv_head in H.
  assert (length (chars projectId) = 4) as Hlen.
  { apply (f_equal (λ s, length (chars s))) in H.
    rewrite !length_chars_append in H. simpl in H. lia. }
  destruct projectId as [|c1 [|c2 [|c3 [|c4 [|c5 rest]]]]]; simpl in Hlen; try lia.
  simpl in H. discriminate H.
Qed.

(** ** Creating a project and reading it back *)

Lemma createProject_run login amb name description σ l :
  idsAt σ (projectListKey login) = Some l →
  let P := {| p_id := randomUUID amb;
              p_name := name;
              p_description := default "" description;
              p_createdAt := now1 amb;
              p_updatedAt := now2 amb |} in
  createProject login amb name description σ
  = (Ok (PProject P),
     <[projectListKeyQuoted := VIds (l ++ [randomUUID amb])]>
       (<[projectKey login (randomUUID amb) := VProject P]> σ),
     [EPut (projectKey login (randomUUID amb)) (VProject P);
      EGet (projectListKey login);
      EPut projectListKeyQuoted (VIds (l ++ [randomUUID amb]))]).
Proof.
  intros Hl P. unfold createProject. cbv zeta.
  eapply bind_steps; [reflexivity| |reflexivity].
  eapply bind_steps;
    [apply getProjectList_ids; rewrite idsAt_insert_ne;
       [done|apply projectKey_not_own_projectListKey]
    |reflexivity|reflexivity].
Qed.

(** X7: [createProject] answers with a record that carries the generated
    id, the given name, the description or the empty string, and the two
    timestamps; it puts the record under the owner's project key and after
    that puts, under the quoted key, the list read from the owner's index
    key with the id appended.  [get_project] with the returned id then
    answers with that record and the todos of the Todo Index under that id
    (none when there is no such index). *)
Theorem createProject_then_get_project login amb name description σ l ids :
  idsAt σ (projectListKey login) = Some l →
  idsAt σ (todoListKey login (randomUUID amb)) = Some ids →
  Forall (todoSlot σ login) ids →
  ∃ P,
    createProject login amb name description σ
    = (Ok (PProject P),
       <[projectListKeyQuoted := VIds (l ++ [p_id P])]>
         (<[projectKey login (p_id P) := VProject P]> σ),
       [EPut (projectKey login (p_id P)) (VProject P);
        EGet (projectListKey login);
        EPut projectListKeyQuoted (VIds (l ++ [p_id P]))])
    ∧ p_id P = randomUUID amb
    ∧ p_name P = name
    ∧ p_description P = match description with Some d => d | None => "" end
    ∧ p_createdAt P = now1 amb
    ∧ p_updatedAt P = now2 amb
    ∧ outcome (get_project login (p_id P)
                 (store_after (createProject login amb name description σ)))
      = Ok (PProjectTodos P (resolve σ login ids)).
Proof.
  intros Hl Hids Hslots.
  pose proof (createProject_run login amb name description σ l Hl) as Hrun.
  simpl in Hrun. eexists. split; [exact Hrun|]. simpl.
  do 5 (split; [by try destruct description|]).
  rewrite Hrun. unfold store_after; simpl.
  set (P := mkProject _ _ _ _ _).
  set (σ' := <[projectListKeyQuoted := _]> _).
  assert (∀ k, k ≠ projectListKeyQuoted → k ≠ projectKey login (randomUUID amb) →
               σ' !! k = σ !! k) as Hframe.
  { intros k Hk1 Hk2. unfold σ'. by rewrite !lookup_insert_ne. }
  assert (∀ id, σ' !! todoKey login id = σ !! todoKey login id) as Htodo.
  { intros id. apply Hframe.
    - apply todoKey_not_projectListKeyQuoted.
    - apply todoKey_not_projectKey. }
  rewrite (get_project_run login (randomUUID amb) σ' P ids).
  - unfold outcome; simpl. by rewrite (resolve_ext login σ σ').
  - unfold σ'.
    rewrite lookup_insert_ne by apply not_eq_sym, projectKey_not_projectListKeyQuoted.
    apply lookup_insert_eq.
  - unfold idsAt. rewrite Hframe; [exact Hids| |].
    + apply todoListKey_not_projectListKeyQuoted.
    + apply not_eq_sym, projectKey_not_own_todoListKey.
  - by apply (todoSlot_ext login σ σ').
Qed.

Lemma createProject_then_get_project_witness :
  outcome (get_project "ermao1688" "u-1"
             (store_after (createProject "ermao1688" (mkAmbient "u-1" "08:00" "08:01")
                             "Launch" None ∅)))
  = Ok (PProjectTodos (mkProject "u-1" "Launch" "" "08:00" "08:01") []).
Proof.
  destruct (createProject_then_get_project "ermao1688"
              (mkAmbient "u-1" "08:00" "08:01") "Launch" None ∅ [] [])
    as (P & Hrun & Hid & Hname & Hdescription & Hcreated & Hupdated & Hget).
  - vm_compute. reflexivity.
  - vm_compute. reflexivity.
  - constructor.
  - simpl in Hid. rewrite Hid in Hget. rewrite Hget.
    destruct P; simpl in *. by subst.
Defined.

(** ** What [delete_project] leaves behind *)

(** The cascade reads and rewrites the Todo Index once per todo; it ends
    with the index that remains after taking out, in turn, the first
    occurrence of each todo's id, and touches no other key. *)
Lemma delete_project_loop_run login projectId todos σ l :
  idsAt σ (todoListKey login projectId) = Some l →
  ∃ σ1 tr,
    delete_project_loop login projectId todos σ = (Ok tt, σ1, tr)
    ∧ idsAt σ1 (todoListKey login projectId)
      = Some (foldl spliceOut l (t_id <$> todos))
    ∧ (∀ k, k ≠ todoListKey login projectId → σ1 !! k = σ !! k)
    ∧ (is_Some (σ !! todoListKey login projectId) →
       is_Some (σ1 !! todoListKey login projectId)).
Proof.
  revert σ l. induction todos as [|todo rest IH]; intros σ l Hl; simpl.
  - eexists _, _. split; [reflexivity|]. repeat split; done.
  - edestruct (IH (<[todoListKey login projectId := VIds (spliceOut l (t_id todo))]> σ)
                 (spliceOut l (t_id todo)))
      as (σ1 & tr & Hrun & Hids & Hframe & Hsome).
    { unfold idsAt. by rewrite lookup_insert_eq. }
    eexists _, _. split.
    { eapply bind_run; [by apply deleteTodo_run|exact Hrun]. }
    split; [exact Hids|]. split.
    + intros k Hk. rewrite Hframe by done. by rewrite lookup_insert_ne.
    + intros _. apply Hsome. rewrite lookup_insert_eq. by eexists.
Qed.

Lemma elem_of_spliceOut l x y : y ∈ spliceOut l x → y ∈ l.
Proof.
  unfold spliceOut, splice. destruct (indexOf l x) as [i|]; [|done].
  rewrite elem_of_app. intros [H|H].
  - by eapply subseteq_take.
  - by eapply subseteq_drop.
Qed.

(** Taking out, one after the other, the first occurrence of every element
    that satisfies [P] leaves the elements that do not, in their order. *)
Lemma foldl_spliceOut_filter (P : string → Prop) `{!∀ x, Decision (P x)} pre l :
  Forall (λ x, ¬ P x) pre →
  foldl spliceOut (pre ++ l) (filter P l) = pre ++ filter (λ x, ¬ P x) l.
Proof.
  revert pre. induction l as [|x l IH]; intros pre Hpre; [done|].
  rewrite !filter_cons. destruct (decide (P x)) as [Hx|Hx].
  - rewrite decide_False by tauto. simpl.
    rewrite spliceOut_first; [by apply IH|].
    intros Hin. by eapply Forall_forall in Hpre.
  - rewrite decide_True by done.
    rewrite (cons_middle x pre l), app_assoc. rewrite IH.
    + by rewrite <- app_assoc.
    + apply Forall_app. split; [done|]. by constructor.
Qed.

Lemma resolve_ids login σ ids :
  Forall (λ id, ∀ t, todoAt σ login id = Some t → t_id t = id) ids →
  t_id <$> resolve σ login ids = filter (λ id, is_Some (todoAt σ login id)) ids.
Proof.
  induction 1 as [|id ids Hid _ IH]; [done|].
  unfold resolve in *. csimpl. rewrite filter_cons.
  destruct (todoAt σ login id) as [t|] eqn:Ht.
  - rewrite decide_True by (by eexists). csimpl. rewrite IH. f_equal. by apply Hid.
  - rewrite decide_False by (by intros [? ?]). exact IH.
Qed.

Lemma delete_project_run login projectId σ v ids l :
  σ !! projectKey login projectId = Some v →
  idsAt σ (todoListKey login projectId) = Some ids →
  Forall (todoSlot σ login) ids →
  idsAt σ (projectListKey login) = Some l →
  ∃ σ1 tr,
    delete_project login projectId σ
    = (Ok (PMessage (projectDeleted projectId)),
       <[projectListKeyQuoted := VIds (spliceOut l projectId)]>
         (delete (projectKey login projectId) σ1), tr)
    ∧ idsAt σ1 (todoListKey login projectId)
      = Some (foldl spliceOut ids (t_id <$> resolve σ login ids))
    ∧ (∀ k, k ≠ todoListKey login projectId → σ1 !! k = σ !! k)
    ∧ (is_Some (σ !! todoListKey login projectId) →
       is_Some (σ1 !! todoListKey login projectId))
    ∧ σ1 = store_after
             (delete_project_loop login projectId (resolve σ login ids) σ).
Proof.
  intros Hv Hids Hslots Hl.
  destruct (delete_project_loop_run login projectId (resolve σ login ids) σ ids Hids)
    as (σ1 & tr & Hloop & Hids1 & Hframe & Hsome).
  exists σ1. eexists. split; [|repeat split; try done; by rewrite Hloop].
  - unfold delete_project.
    eapply bind_steps; [reflexivity| |reflexivity]. rewrite Hv.
    eapply bind_steps; [by apply getTodosByProject_resolve| |reflexivity].
    eapply bind_steps; [exact Hloop| |reflexivity].
    eapply bind_steps; [reflexivity| |reflexivity].
    eapply bind_steps; [|reflexivity|reflexivity].
    apply getProjectList_ids. unfold idsAt.
    rewrite lookup_delete_ne by apply projectKey_not_own_projectListKey.
    rewrite Hframe by apply not_eq_sym, todoListKey_not_projectListKey.
    exact Hl.
Qed.

(** X8: [delete_project] on an existing project deletes the Project
    record: afterwards [get_project] and [create_todo] answer with the
    not-found sentence, [list_todos] throws, and a second [delete_project]
    answers with the not-found sentence and changes nothing. *)
Theorem delete_project_then login projectId σ v ids l :
  σ !! projectKey login projectId = Some v →
  idsAt σ (todoListKey login projectId) = Some ids →
  Forall (todoSlot σ login) ids →
  idsAt σ (projectListKey login) = Some l →
  outcome (delete_project login projectId σ) = Ok (PMessage (projectDeleted projectId))
  ∧ let σ' := store_after (delete_project login projectId σ) in
    σ' !! projectKey login projectId = None
    ∧ get_project login projectId σ'
      = (Ok (PMessage (projectNotFound projectId)), σ',
         [EGet (projectKey login projectId)])
    ∧ (∀ status, list_todos login projectId status σ'
        = (Throw (projectNotFound projectId), σ', [EGet (projectKey login projectId)]))
    ∧ (∀ amb title description priority,
         create_todo login amb projectId title description priority σ'
         = (Ok (PMessage (projectNotFound projectId)), σ',
            [EGet (projectKey login projectId)]))
    ∧ delete_project login projectId σ'
      = (Ok (PMessage (projectNotFound projectId)), σ',
         [EGet (projectKey login projectId)]).
Proof.
  intros Hv Hids Hslots Hl.
  destruct (delete_project_run login projectId σ v ids l Hv Hids Hslots Hl)
    as (σ1 & tr & -> & _).
  unfold outcome, store_after; simpl. split; [done|].
  set (σ' := <[projectListKeyQuoted := _]> _).
  assert (σ' !! projectKey login projectId = None) as Hgone.
  { unfold σ'.
    rewrite lookup_insert_ne by apply not_eq_sym, projectKey_not_projectListKeyQuoted.
    apply lookup_delete_eq. }
  split; [done|].
  unfold get_project, list_todos, create_todo, delete_project, bind, KV_get.
  rewrite Hgone. by repeat split.
Qed.

Lemma delete_project_then_witness :
  let σ : KVNamespace :=
    {[ projectKey "ermao1688" "p" := VProject (mkProject "p" "Launch" "v1" "08:00" "08:00");
       todoListKey "ermao1688" "p" := VIds ["t"];
       todoKey "ermao1688" "t"
       := VTodo (mkTodo "t" "p" "Write spec" "" pending high "09:00" "09:00") ]} in
  let σ' := store_after (delete_project "ermao1688" "p" σ) in
  outcome (get_project "ermao1688" "p" σ') = Ok (PMessage "Project with ID p not found")
  ∧ outcome (delete_project "ermao1688" "p" σ')
    = Ok (PMessage "Project with ID p not found").
Proof.
  intros σ σ'.
  destruct (delete_project_then "ermao1688" "p" σ
              (VProject (mkProject "p" "Launch" "v1" "08:00" "08:00")) ["t"] [])
    as (_ & _ & Hget & _ & _ & Hagain).
  - vm_compute. reflexivity.
  - vm_compute. reflexivity.
  - repeat constructor; vm_compute; exact I.
  - vm_compute. reflexivity.
  - fold σ' in Hget, Hagain. by rewrite Hget, Hagain.
Defined.

(** X9: when every listed record carries the id it is stored under,
    [delete_project] leaves the project's Todo Index holding exactly the
    ids that had no record, in their order: the id of every listed todo is
    taken out, the index key itself is not deleted, and every Todo record
    is still stored. *)
Theorem delete_project_index_remainder login projectId σ v ids l :
  σ !! projectKey login projectId = Some v →
  idsAt σ (todoListKey login projectId) = Some ids →
  Forall (todoSlot σ login) ids →
  idsAt σ (projectListKey login) = Some l →
  Forall (λ id, ∀ t, todoAt σ login id = Some t → t_id t = id) ids →
  let σ' := store_after (delete_project login projectId σ) in
  idsAt σ' (todoListKey login projectId)
  = Some (filter (λ id, ¬ is_Some (todoAt σ login id)) ids)
  ∧ (is_Some (σ !! todoListKey login projectId) →
     is_Some (σ' !! todoListKey login projectId))
  ∧ ∀ id, σ' !! todoKey login id = σ !! todoKey login id.
Proof.
  intros Hv Hids Hslots Hl Hnamed.
  destruct (delete_project_run login projectId σ v ids l Hv Hids Hslots Hl)
    as (σ1 & tr & -> & Hids1 & Hframe & Hsome & _).
  unfold store_after; simpl.
  assert (∀ k, k ≠ projectListKeyQuoted → k ≠ projectKey login projectId →
               <[projectListKeyQuoted := VIds (spliceOut l projectId)]>
                 (delete (projectKey login projectId) σ1) !! k = σ1 !! k) as Hlate.
  { intros k Hk1 Hk2. rewrite lookup_insert_ne by done. by apply lookup_delete_ne. }
  assert (<[projectListKeyQuoted := VIds (spliceOut l projectId)]>
            (delete (projectKey login projectId) σ1) !! todoListKey login projectId
          = σ1 !! todoListKey login projectId) as Hindex.
  { apply Hlate.
    - apply todoListKey_not_projectListKeyQuoted.
    - apply not_eq_sym, projectKey_not_own_todoListKey. }
  split; [|split].
  - unfold idsAt in *. rewrite Hindex, Hids1. f_equal.
    rewrite (resolve_ids login σ ids Hnamed).
    apply (foldl_spliceOut_filter (λ id, is_Some (todoAt σ login id)) [] ids).
    constructor.
  - intros Hw. rewrite Hindex. by apply Hsome.
  - intros id. rewrite Hlate.
    + apply Hframe, todoKey_not_todoListKey.
    + apply todoKey_not_projectListKeyQuoted.
    + apply todoKey_not_projectKey.
Qed.

Lemma delete_project_index_remainder_witness :
  let σ : KVNamespace :=
    {[ projectKey "ermao1688" "p" := VProject (mkProject "p" "Launch" "v1" "08:00" "08:00");
       todoListKey "ermao1688" "p" := VIds ["t"; "gone"];
       todoKey "ermao1688" "t"
       := VTodo (mkTodo "t" "p" "Write spec" "" pending high "09:00" "09:00") ]} in
  idsAt (store_after (delete_project "ermao1688" "p" σ)) (todoListKey "ermao1688" "p")
  = Some ["gone"].
Proof.
  intros σ.
  destruct (delete_project_index_remainder "ermao1688" "p" σ
              (VProject (mkProject "p" "Launch" "v1" "08:00" "08:00")) ["t"; "gone"] [])
    as (Hindex & _).
  - vm_compute. reflexivity.
  - vm_compute. reflexivity.
  - repeat constructor; vm_compute; exact I.
  - vm_compute. reflexivity.
  - repeat constructor; vm_compute; intros t Ht; simplify_eq; reflexivity.
  - rewrite Hindex. vm_compute. reflexivity.
Defined.

(** ** Each owner sees its own calls only *)

Lemma run_calls_of_agree B reqs σ σ' :
  has ALLOWED_USERNAMES B = true →
  agree (reads_of B) σ σ' →
  agree (reads_of B) (run reqs σ) (run (calls_of B reqs) σ').
Proof.
  intros HB. revert σ σ'.
  induction reqs as [|r reqs IH]; intros σ σ' H; [done|].
  rewrite run_cons. unfold calls_of. rewrite filter_cons.
  destruct (decide (caller r = B)) as [HrB|HrB].
  - rewrite run_cons. apply IH. unfold serve. rewrite HrB. by apply call_agree.
  - apply IH. eapply agree_trans; [|exact H]. by apply serve_other.
Qed.

(** X10: what any of the nine tools answers to an owner after a sequence
    of calls is what it answers after that owner's own calls alone: the
    calls of all other logins, allowed or not, can be struck from the
    sequence without changing any answer the owner gets. *)
Theorem answers_depend_on_own_calls B reqs σ amb t :
  answer (call B amb t (run reqs σ))
  = answer (call B amb t (run (calls_of B reqs) σ)).
Proof.
  destruct (has ALLOWED_USERNAMES B) eqn:HB.
  - apply call_agree. by apply run_calls_of_agree.
  - unfold call, answer. by rewrite HB.
Qed.

(** ** Stores reached from the empty one *)

Lemma chars_inj s t : chars s = chars t → s = t.
Proof.
  revert t. induction s as [|c s IH]; intros [|c' t] H; simpl in H; try done.
  injection H as -> H. f_equal. by apply IH.
Qed.

Lemma append_inv_tail (s1 s2 t : string) : s1 +:+ t = s2 +:+ t → s1 = s2.
Proof.
  intros H. apply chars_inj. apply (f_equal chars) in H.
  rewrite !chars_app in H. by apply app_inv_tail in H.
Qed.

(** For the allowed logins the key templates are injective. *)
Lemma todoKey_inj_allowed l l' x y :
  has ALLOWED_USERNAMES l = true → has ALLOWED_USERNAMES l' = true →
  todoKey l x = todoKey l' y → l = l' ∧ x = y.
Proof.
  intros [-> | ->]%allowed_cases [-> | ->]%allowed_cases H;
    first [ split; [done|exact (todoKey_inj _ _ _ H)] | keys_differ H ].
Qed.

Lemma projectKey_inj_allowed l l' x y :
  has ALLOWED_USERNAMES l = true → has ALLOWED_USERNAMES l' = true →
  projectKey l x = projectKey l' y → l = l' ∧ x = y.
Proof.
  intros [-> | ->]%allowed_cases [-> | ->]%allowed_cases H;
    first [ split; [done|];
            unfold projectKey in H; apply append_inv_head in H;
            by apply append_inv_tail in H
          | keys_differ H ].
Qed.

Lemma todoListKey_inj_allowed l l' x y :
  has ALLOWED_USERNAMES l = true → has ALLOWED_USERNAMES l' = true →
  todoListKey l x = todoListKey l' y → l = l' ∧ x = y.
Proof.
  intros [-> | ->]%allowed_cases [-> | ->]%allowed_cases H;
    first [ split; [done|];
            unfold todoListKey in H; apply append_inv_head in H;
            by apply append_inv_tail in H
          | keys_differ H ].
Qed.

Lemma projectKey_not_todoListKey_allowed l l' x y :
  has ALLOWED_USERNAMES l = true →
  projectKey l x ≠ todoListKey l' y.
Proof. intros [-> | ->]%allowed_cases H; keys_differ H. Qed.

(** *** Records named by their keys *)

Lemma self_named_insert_ids σ k ids :
  self_named σ → self_named (<[k := VIds ids]> σ).
Proof.
  intros Hσ login x Hlogin. destruct (Hσ login x Hlogin) as [Ht Hp].
  split; intros r; rewrite lookup_insert; case_decide; intros Hr; auto;
    discriminate Hr.
Qed.

Lemma self_named_delete σ k : self_named σ → self_named (delete k σ).
Proof.
  intros Hσ login x Hlogin. destruct (Hσ login x Hlogin) as [Ht Hp].
  split; intros r Hr; apply lookup_delete_Some in Hr as [_ Hr]; auto.
Qed.

Lemma self_named_insert_todo σ l u t :
  self_named σ → has ALLOWED_USERNAMES l = true → t_id t = u →
  self_named (<[todoKey l u := VTodo t]> σ).
Proof.
  intros Hσ Hl Hid login x Hlogin. destruct (Hσ login x Hlogin) as [Ht Hp].
  split; intros r; rewrite lookup_insert; case_decide as Hk; intros Hr; auto.
  - apply todoKey_inj_allowed in Hk as [_ <-]; [|done..]. by simplify_eq.
  - discriminate Hr.
Qed.

Lemma self_named_insert_project σ l u p :
  self_named σ → has ALLOWED_USERNAMES l = true → p_id p = u →
  self_named (<[projectKey l u := VProject p]> σ).
Proof.
  intros Hσ Hl Hid login x Hlogin. destruct (Hσ login x Hlogin) as [Ht Hp].
  split; intros r; rewrite lookup_insert; case_decide as Hk; intros Hr; auto.
  - discriminate Hr.
  - apply projectKey_inj_allowed in Hk as [_ <-]; [|done..]. by simplify_eq.
Qed.

(** *** Index entries with their records *)

Lemma linked_insert_aside σ k w :
  linked σ →
  (∀ l x, k ≠ todoListKey l x) → (∀ l x, k ≠ todoKey l x) →
  linked (<[k := w]> σ).
Proof.
  intros Hσ Hk1 Hk2 login P ids id Hlogin Hids Hid.
  rewrite lookup_insert_ne in Hids by apply Hk1.
  rewrite lookup_insert_ne by apply Hk2. by eapply Hσ.
Qed.

Lemma linked_delete_aside σ k :
  linked σ →
  (∀ l x, k ≠ todoListKey l x) → (∀ l x, k ≠ todoKey l x) →
  linked (delete k σ).
Proof.
  intros Hσ Hk1 Hk2 login P ids id Hlogin Hids Hid.
  rewrite lookup_delete_ne in Hids by apply Hk1.
  rewrite lookup_delete_ne by apply Hk2. by eapply Hσ.
Qed.

Lemma linked_insert_todo_new σ l u t :
  linked σ → σ !! todoKey l u = None →
  linked (<[todoKey l u := VTodo t]> σ).
Proof.
  intros Hσ Hnew login P ids id Hlogin Hids Hid.
  rewrite lookup_insert_ne in Hids by apply todoKey_not_todoListKey.
  destruct (Hσ login P ids id Hlogin Hids Hid) as (t' & Ht' & HP).
  exists t'. split; [|done]. rewrite lookup_insert_ne; [done|]. congruence.
Qed.

Lemma linked_insert_todo_same σ l u t t0 :
  linked σ → σ !! todoKey l u = Some (VTodo t0) →
  t_projectId t = t_projectId t0 →
  linked (<[todoKey l u := VTodo t]> σ).
Proof.
  intros Hσ Hold Hproject login P ids id Hlogin Hids Hid.
  rewrite lookup_insert_ne in Hids by apply todoKey_not_todoListKey.
  destruct (Hσ login P ids id Hlogin Hids Hid) as (t' & Ht' & HP).
  rewrite lookup_insert. case_decide as Hk.
  - exists t. split; [done|]. rewrite <- Hk, Hold in Ht'.
    injection Ht' as <-. congruence.
  - by exists t'.
Qed.

Lemma linked_insert_index σ l P0 ids0 :
  linked σ → has ALLOWED_USERNAMES l = true →
  (∀ id, id ∈ ids0 →
         ∃ t, σ !! todoKey l id = Some (VTodo t) ∧ t_projectId t = P0) →
  linked (<[todoListKey l P0 := VIds ids0]> σ).
Proof.
  intros Hσ Hl Hrecords login P ids id Hlogin Hids Hid.
  rewrite lookup_insert_ne by apply not_eq_sym, todoKey_not_todoListKey.
  rewrite lookup_insert in Hids. case_decide as Hk.
  - apply todoListKey_inj_allowed in Hk as [<- <-]; [|done..].
    injection Hids as <-. auto.
  - by eapply Hσ.
Qed.

Lemma linked_delete_todo σ l u :
  linked σ → has ALLOWED_USERNAMES l = true →
  (∀ P ids, σ !! todoListKey l P = Some (VIds ids) → u ∉ ids) →
  linked (delete (todoKey l u) σ).
Proof.
  intros Hσ Hl Hunlisted login P ids id Hlogin Hids Hid.
  rewrite lookup_delete_ne in Hids by apply todoKey_not_todoListKey.
  destruct (Hσ login P ids id Hlogin Hids Hid) as (t & Ht & HP).
  exists t. split; [|done]. rewrite lookup_delete_ne; [done|].
  intros Hk. apply todoKey_inj_allowed in Hk as [<- <-]; [|done..].
  by eapply Hunlisted.
Qed.

(** *** Index lists without repetition *)

Lemma distinct_insert_aside σ k w :
  distinct σ → (∀ l x, k ≠ todoListKey l x) → distinct (<[k := w]> σ).
Proof.
  intros Hσ Hk login P ids Hlogin Hids.
  rewrite lookup_insert_ne in Hids by apply Hk. by eapply Hσ.
Qed.

Lemma distinct_delete σ k : distinct σ → distinct (delete k σ).
Proof.
  intros Hσ login P ids Hlogin Hids.
  apply lookup_delete_Some in Hids as [_ Hids]. by eapply Hσ.
Qed.

Lemma distinct_insert_index σ l P0 ids0 :
  distinct σ → NoDup ids0 → distinct (<[todoListKey l P0 := VIds ids0]> σ).
Proof.
  intros Hσ Hids0 login P ids Hlogin Hids.
  rewrite lookup_insert in Hids. case_decide as Hk.
  - by injection Hids as <-.
  - by eapply Hσ.
Qed.

Lemma idsAt_NoDup σ l P ids :
  distinct σ → has ALLOWED_USERNAMES l = true →
  idsAt σ (todoListKey l P) = Some ids → NoDup ids.
Proof.
  intros Hσ Hl Hids. unfold idsAt in Hids.
  destruct (σ !! todoListKey l P) as [[ | |ids']|] eqn:Hindex; simplify_eq.
  - by eapply Hσ.
  - constructor.
Qed.

Lemma spliceOut_sublist l x : spliceOut l x `sublist_of` l.
Proof.
  unfold spliceOut, splice. destruct (indexOf l x) as [i|]; [|done].
  rewrite <- (take_drop i l) at 3. apply sublist_app; [done|].
  rewrite <- drop_drop. apply sublist_drop.
Qed.

Lemma filter_all (P : string → Prop) `{!∀ x, Decision (P x)} (l : list string) :
  (∀ y, y ∈ l → P y) → filter P l = l.
Proof.
  induction l as [|y l IH]; intros Hall; [done|].
  rewrite filter_cons_True by (apply Hall; by left).
  f_equal. apply IH. intros z Hz. apply Hall. by right.
Qed.

Lemma filter_none (P : string → Prop) `{!∀ x, Decision (P x)} (l : list string) :
  (∀ y, y ∈ l → ¬ P y) → filter P l = [].
Proof.
  induction l as [|y l IH]; intros Hnone; [done|].
  rewrite filter_cons_False by (apply Hnone; by left).
  apply IH. intros z Hz. apply Hnone. by right.
Qed.

(** On a list without repetition, taking out the first occurrence and
    taking out every occurrence give the same list. *)
Lemma spliceOut_filter_NoDup l x :
  NoDup l → spliceOut l x = filter (λ y, y ≠ x) l.
Proof.
  intros Hl. destruct (decide (x ∈ l)) as [Hx|Hx].
  - apply list_elem_of_split in Hx as (pre & post & ->).
    apply NoDup_app in Hl as (Hpre & Hdisj & Hpost).
    apply NoDup_cons in Hpost as [Hxpost Hpost].
    assert (x ∉ pre) as Hxpre.
    { intros Hin. apply (Hdisj x Hin). by left. }
    rewrite spliceOut_first by done.
    rewrite filter_app, filter_cons, decide_False by tauto.
    f_equal; symmetry; apply filter_all; congruence.
  - rewrite spliceOut_absent by done. symmetry. apply filter_all. congruence.
Qed.

(** *** Every call keeps the store consistent *)

Lemma store_after_bind {A B} (m : M A) (f : A → M B) σ a σ1 tr1 :
  m σ = (Ok a, σ1, tr1) →
  store_after (bind m f σ) = store_after (f a σ1).
Proof.
  intros Hm. unfold store_after, bind. rewrite Hm.
  by destruct (f a σ1) as [[r σ2] tr2].
Qed.

Lemma idsAt_records σ l P ids :
  linked σ → has ALLOWED_USERNAMES l = true →
  idsAt σ (todoListKey l P) = Some ids →
  ∀ id, id ∈ ids → ∃ t, σ !! todoKey l id = Some (VTodo t) ∧ t_projectId t = P.
Proof.
  intros Hσ Hl Hids id Hid. unfold idsAt in Hids.
  destruct (σ !! todoListKey l P) as [[ | |ids']|] eqn:Hindex; simplify_eq.
  - by eapply Hσ.
  - by apply elem_of_nil in Hid.
Qed.

Section Consistent.
Variable l : string.
Hypothesis Hl : has ALLOWED_USERNAMES l = true.

Lemma consistent_insert_index σ P ids :
  consistent σ →
  (∀ id, id ∈ ids → ∃ t, σ !! todoKey l id = Some (VTodo t) ∧ t_projectId t = P) →
  NoDup ids →
  consistent (<[todoListKey l P := VIds ids]> σ).
Proof.
  intros (Htyped & Hnamed & Hlinked & Hdistinct) Hrecords Hids.
  split; [|split; [|split]].
  - apply typed_insert; [done|by constructor].
  - by apply self_named_insert_ids.
  - by apply linked_insert_index.
  - by apply distinct_insert_index.
Qed.

Lemma consistent_insert_quoted σ ids :
  consistent σ → consistent (<[projectListKeyQuoted := VIds ids]> σ).
Proof.
  intros (Htyped & Hnamed & Hlinked & Hdistinct). split; [|split; [|split]].
  - apply typed_insert; [done|by constructor].
  - by apply self_named_insert_ids.
  - apply linked_insert_aside; [done| |].
    + intros l' x. apply not_eq_sym, todoListKey_not_projectListKeyQuoted.
    + intros l' x. apply not_eq_sym, todoKey_not_projectListKeyQuoted.
  - apply distinct_insert_aside; [done|].
    intros l' x. apply not_eq_sym, todoListKey_not_projectListKeyQuoted.
Qed.

Lemma consistent_createProject amb name description σ :
  consistent σ →
  consistent (store_after (createProject l amb name description σ)).
Proof.
  intros Hσ. pose proof Hσ as (Htyped & Hnamed & Hlinked & Hdistinct).
  rewrite (createProject_run l amb name description σ []).
  2: { unfold idsAt. by rewrite (typed_projectList l). }
  unfold store_after; simpl. apply consistent_insert_quoted.
  split; [|split; [|split]].
  - apply typed_insert; [done|by constructor].
  - by apply self_named_insert_project.
  - apply linked_insert_aside; [done| |].
    + intros l' x. by apply projectKey_not_todoListKey_allowed.
    + intros l' x. apply not_eq_sym, todoKey_not_projectKey.
  - apply distinct_insert_aside; [done|].
    intros l' x. by apply projectKey_not_todoListKey_allowed.
Qed.

Lemma consistent_create_todo amb projectId title description priority σ :
  consistent σ →
  σ !! todoKey l (randomUUID amb) = None →
  consistent (store_after (create_todo l amb projectId title description priority σ)).
Proof.
  intros Hσ Hfresh. pose proof Hσ as (Htyped & Hnamed & Hlinked & Hdistinct).
  destruct (σ !! projectKey l projectId) as [v|] eqn:Hproject.
  2: { unfold create_todo, bind, KV_get, store_after. by rewrite Hproject. }
  destruct (typed_idsAt l σ projectId Hl Htyped) as [ids Hids].
  pose proof (create_todo_run l amb projectId title description priority σ v ids
                Hproject Hids) as Hrun.
  simpl in Hrun. rewrite Hrun. unfold store_after; simpl.
  set (T := newTodo amb projectId title description priority).
  assert (consistent (<[todoKey l (randomUUID amb) := VTodo T]> σ)) as Hσ1.
  { split; [|split; [|split]].
    - apply typed_insert; [done|by constructor].
    - by apply self_named_insert_todo.
    - by apply linked_insert_todo_new.
    - apply distinct_insert_aside; [done|].
      intros l' x. apply todoKey_not_todoListKey. }
  apply consistent_insert_index; [done| |].
  - intros id [Hid| ->%list_elem_of_singleton]%elem_of_app.
    + destruct Hσ1 as (_ & _ & Hlinked1 & _).
      apply (idsAt_records _ l projectId ids Hlinked1 Hl); [|done].
      rewrite idsAt_insert_ne; [done|apply todoKey_not_todoListKey].
    + exists T. by rewrite lookup_insert_eq.
  - apply NoDup_app. split; [by eapply idsAt_NoDup|]. split; [|apply NoDup_singleton].
    intros id Hid ->%list_elem_of_singleton.
    destruct (idsAt_records σ l projectId ids Hlinked Hl Hids _ Hid) as (t & Ht & _).
    by rewrite Hfresh in Ht.
Qed.

Lemma consistent_update_todo amb todoId title description status priority σ :
  consistent σ →
  consistent (store_after
                (update_todo l amb todoId title description status priority σ)).
Proof.
  intros Hσ. pose proof Hσ as (Htyped & Hnamed & Hlinked & Hdistinct).
  destruct (σ !! todoKey l todoId) as [v|] eqn:Htodo.
  2: { unfold update_todo, bind, KV_get, store_after. by rewrite Htodo. }
  destruct (typed_todo l σ todoId v Hl Htyped Htodo) as [T ->].
  pose proof (update_todo_run l amb todoId title description status priority σ T
                Htodo) as Hrun.
  simpl in Hrun. rewrite Hrun. unfold store_after; simpl.
  split; [|split; [|split]].
  - apply typed_insert; [done|by constructor].
  - apply self_named_insert_todo; [done..|]. simpl.
    by apply (Hnamed l todoId Hl).
  - by eapply linked_insert_todo_same.
  - apply distinct_insert_aside; [done|].
    intros l' x. apply todoKey_not_todoListKey.
Qed.

Lemma consistent_delete_todo todoId σ :
  consistent σ → consistent (store_after (delete_todo l todoId σ)).
Proof.
  intros Hσ. pose proof Hσ as (Htyped & Hnamed & Hlinked & Hdistinct).
  destruct (σ !! todoKey l todoId) as [v|] eqn:Htodo.
  2: { unfold delete_todo, bind, KV_get, store_after. by rewrite Htodo. }
  destruct (typed_todo l σ todoId v Hl Htyped Htodo) as [T ->].
  destruct (typed_idsAt l σ (t_projectId T) Hl Htyped) as [ids Hids].
  rewrite (delete_todo_run l todoId σ T ids Htodo Hids). unfold store_after; simpl.
  assert (consistent (<[todoListKey l (t_projectId T)
                        := VIds (filter (λ id, id ≠ todoId) ids)]> σ)) as Hσ1.
  { apply consistent_insert_index; [done| |].
    - intros id [_ Hid]%list_elem_of_filter.
      by apply (idsAt_records σ l (t_projectId T) ids).
    - apply NoDup_filter. by eapply idsAt_NoDup. }
  destruct Hσ1 as (Htyped1 & Hnamed1 & Hlinked1 & Hdistinct1).
  split; [|split; [|split]]; [| | |by apply distinct_delete].
  - by apply typed_delete.
  - by apply self_named_delete.
  - apply linked_delete_todo; [done..|].
    intros P ids'. rewrite lookup_insert. case_decide as Hk.
    + intros [= <-]. rewrite list_elem_of_filter. by intros [? _].
    + intros Hids' Hin.
      destruct (Hlinked l P ids' todoId Hl Hids' Hin) as (t & Ht & HP).
      rewrite Htodo in Ht. injection Ht as <-. by rewrite HP in Hk.
Qed.

Lemma consistent_delete_project_loop projectId todos σ :
  consistent σ →
  consistent (store_after (delete_project_loop l projectId todos σ)).
Proof.
  revert σ. induction todos as [|todo rest IH]; intros σ Hσ; [done|].
  pose proof Hσ as (Htyped & Hnamed & Hlinked & Hdistinct).
  destruct (typed_idsAt l σ projectId Hl Htyped) as [ids Hids].
  simpl. erewrite store_after_bind by (by apply deleteTodo_run).
  apply IH. apply consistent_insert_index; [done| |].
  - intros id Hid%elem_of_spliceOut.
    by apply (idsAt_records σ l projectId ids).
  - eapply sublist_NoDup; [by eapply idsAt_NoDup|apply spliceOut_sublist].
Qed.

Lemma consistent_delete_project projectId σ :
  consistent σ → consistent (store_after (delete_project l projectId σ)).
Proof.
  intros Hσ. pose proof Hσ as (Htyped & Hnamed & Hlinked & Hdistinct).
  destruct (σ !! projectKey l projectId) as [v|] eqn:Hproject.
  2: { unfold delete_project, bind, KV_get, store_after. by rewrite Hproject. }
  destruct (typed_idsAt l σ projectId Hl Htyped) as [ids Hids].
  destruct (delete_project_run l projectId σ v ids [] Hproject Hids)
    as (σ1 & tr & -> & _ & _ & _ & ->).
  { by apply typed_todoSlot. }
  { unfold idsAt. by rewrite (typed_projectList l). }
  unfold store_after at 1; simpl. apply consistent_insert_quoted.
  destruct (consistent_delete_project_loop projectId (resolve σ l ids) σ Hσ)
    as (Htyped1 & Hnamed1 & Hlinked1 & Hdistinct1).
  split; [|split; [|split]]; [| | |by apply distinct_delete].
  - by apply typed_delete.
  - by apply self_named_delete.
  - apply linked_delete_aside; [done| |].
    + intros l' x. by apply projectKey_not_todoListKey_allowed.
    + intros l' x. apply not_eq_sym, todoKey_not_projectKey.
Qed.

End Consistent.

Lemma serve_consistent σ r :
  consistent σ → fresh_todo_id σ r → consistent (serve σ r).
Proof.
  intros Hσ Hfresh. unfold serve, call.
  destruct (has ALLOWED_USERNAMES (caller r)) eqn:Hallowed; [|done].
  destruct (schema_ok (invoked r)); [|done].
  assert (consistent (store_after (handler (caller r) (ambient r) (invoked r) σ)))
    as Hafter.
  { unfold fresh_todo_id in Hfresh.
    destruct (invoked r); simpl.
    - by apply consistent_createProject.
    - by destruct (writes_nowhere _ σ (get_project_list_writes_nowhere (caller r)))
        as [-> _].
    - by destruct (writes_nowhere _ σ
                     (get_project_writes_nowhere (caller r) projectId)) as [-> _].
    - by apply consistent_delete_project.
    - by apply consistent_create_todo.
    - by apply consistent_update_todo.
    - by apply consistent_delete_todo.
    - by destruct (writes_nowhere _ σ (get_todo_writes_nowhere (caller r) todoId))
        as [-> _].
    - by destruct (writes_nowhere _ σ
                     (list_todos_writes_nowhere (caller r) projectId status))
        as [-> _]. }
  unfold store_after in Hafter.
  by destruct (handler (caller r) (ambient r) (invoked r) σ) as [[[p|e] σ'] tr].
Qed.

Lemma run_consistent reqs σ :
  consistent σ → fresh_ids reqs σ → consistent (run reqs σ).
Proof.
  revert σ. induction reqs as [|r reqs IH]; intros σ Hσ Hfresh; [done|].
  destruct Hfresh as [Hr Hrest]. rewrite run_cons.
  apply IH; [by apply serve_consistent|done].
Qed.

Lemma consistent_empty : consistent ∅.
Proof.
  split; [apply typed_empty|]. split; [|split].
  - intros login x _. split; intros r Hr; by rewrite lookup_empty in Hr.
  - intros login P ids id _ Hids. by rewrite lookup_empty in Hids.
  - intros login P ids _ Hids. by rewrite lookup_empty in Hids.
Qed.

Lemma resolve_all login σ P ids :
  (∀ id, id ∈ ids →
         ∃ t, σ !! todoKey login id = Some (VTodo t) ∧ t_id t = id ∧ t_projectId t = P) →
  t_id <$> resolve σ login ids = ids
  ∧ Forall (λ t, t_projectId t = P) (resolve σ login ids).
Proof.
  induction ids as [|id ids IH]; intros Hall; [by split|].
  destruct (Hall id) as (t & Ht & Hid & HP); [by left|].
  destruct IH as [IH1 IH2]; [intros id' Hid'; apply Hall; by right|].
  assert (todoAt σ login id = Some t) as Hat by (unfold todoAt; by rewrite Ht).
  unfold resolve in *. csimpl. rewrite Hat. csimpl.
  split; [by rewrite IH1, Hid|by constructor].
Qed.

Lemma reachable_consistent reqs : fresh_ids reqs ∅ → consistent (run reqs ∅).
Proof. intros Hfresh. apply run_consistent; [apply consistent_empty|done]. Qed.

Lemma reachable_records reqs login projectId ids :
  fresh_ids reqs ∅ →
  has ALLOWED_USERNAMES login = true →
  run reqs ∅ !! todoListKey login projectId = Some (VIds ids) →
  ∀ id, id ∈ ids →
    ∃ t, run reqs ∅ !! todoKey login id = Some (VTodo t)
         ∧ t_id t = id ∧ t_projectId t = projectId.
Proof.
  intros Hfresh Hlogin Hids id Hid.
  destruct (reachable_consistent reqs Hfresh) as (_ & Hnamed & Hlinked & _).
  destruct (Hlinked login projectId ids id Hlogin Hids Hid) as (t & Ht & HP).
  exists t. split; [done|]. split; [|done]. by apply (Hnamed login id Hlogin).
Qed.

(** X11: in every store reached from the empty one, under an allowed
    login's project keys sit Project records, under its todo keys Todo
    records and under its Todo Index keys id lists, so that no call ever
    stops on a stored value of the wrong shape. *)
Theorem reachable_store_shapes reqs login x :
  has ALLOWED_USERNAMES login = true →
  (∀ v, run reqs ∅ !! projectKey login x = Some v → ∃ p, v = VProject p)
  ∧ (∀ v, run reqs ∅ !! todoKey login x = Some v → ∃ t, v = VTodo t)
  ∧ (∀ v, run reqs ∅ !! todoListKey login x = Some v → ∃ ids, v = VIds ids)
  ∧ (∀ amb t, answer (call login amb t (run reqs ∅)) ≠ Fault malformed).
Proof.
  intros Hlogin.
  assert (typed (run reqs ∅)) as Htyped by apply run_typed, typed_empty.
  split; [|split; [|split]].
  - intros v. by apply typed_project.
  - intros v. by apply typed_todo.
  - intros v. by apply typed_todoList.
  - intros amb t. apply never_malformed.
Qed.

Lemma reachable_store_shapes_witness :
  ∃ p,
    run [mkRequest "ermao1688" (mkAmbient "u-1" "08:00" "08:00")
           (Tool_createProject "Launch" None)] ∅
    !! projectKey "ermao1688" "u-1" = Some (VProject p).
Proof.
  destruct (reachable_store_shapes
              [mkRequest "ermao1688" (mkAmbient "u-1" "08:00" "08:00")
                 (Tool_createProject "Launch" None)] "ermao1688" "u-1")
    as (Hproject & _).
  - vm_compute. reflexivity.
  - destruct (Hproject (VProject (mkProject "u-1" "Launch" "" "08:00" "08:00")))
      as [p Hp].
    + vm_compute. reflexivity.
    + exists p. rewrite <- Hp. vm_compute. reflexivity.
Defined.

(** X12: when the calls are served one at a time from the empty store,
    no call starting before the one before it has finished, and every
    [create_todo] is handed an id that names no stored todo of the caller,
    then in the store they leave each id of a Todo Index has a Todo record
    that carries this id and the project id of the index, and no index
    lists an id twice; so [list_todos] on an existing project answers with
    exactly one todo per index entry, in index order.  (Nothing is said of
    calls whose store operations interleave: the handlers take no lock.) *)
Theorem reachable_index_integrity reqs σ login projectId ids :
  served_in_turn reqs σ →
  fresh_ids reqs ∅ →
  has ALLOWED_USERNAMES login = true →
  σ !! todoListKey login projectId = Some (VIds ids) →
  NoDup ids
  ∧ (∀ id, id ∈ ids →
       ∃ t, σ !! todoKey login id = Some (VTodo t)
            ∧ t_id t = id ∧ t_projectId t = projectId)
  ∧ (is_Some (σ !! projectKey login projectId) →
     ∃ ts, outcome (list_todos login projectId None σ) = Ok (PTodos ts)
           ∧ t_id <$> ts = ids
           ∧ Forall (λ t, t_projectId t = projectId) ts).
Proof.
  unfold served_in_turn. intros -> Hfresh Hlogin Hids.
  pose proof (reachable_consistent reqs Hfresh) as (Htyped & _ & _ & Hdistinct).
  pose proof (reachable_records reqs login projectId ids Hfresh Hlogin Hids)
    as Hrecords.
  split; [by eapply Hdistinct|]. split; [done|].
  intros [v Hv]. exists (resolve (run reqs ∅) login ids).
  split; [|by apply resolve_all].
  rewrite (list_todos_run login projectId None (run reqs ∅) v ids); try done.
  - unfold idsAt. by rewrite Hids.
  - by apply typed_todoSlot.
Qed.

Lemma reachable_index_integrity_witness :
  let reqs :=
    [mkRequest "ermao1688" (mkAmbient "p" "08:00" "08:00")
       (Tool_createProject "Launch" None);
     mkRequest "ermao1688" (mkAmbient "a" "09:00" "09:00")
       (Tool_create_todo "p" "one" None None);
     mkRequest "ermao1688" (mkAmbient "b" "09:01" "09:01")
       (Tool_create_todo "p" "two" None (Some high))] in
  ∃ ts, outcome (list_todos "ermao1688" "p" None (run reqs ∅)) = Ok (PTodos ts)
        ∧ t_id <$> ts = ["a"; "b"].
Proof.
  intros reqs.
  destruct (reachable_index_integrity reqs (run reqs ∅) "ermao1688" "p" ["a"; "b"])
    as (_ & _ & Hlist).
  - reflexivity.
  - vm_compute. repeat split; reflexivity.
  - vm_compute. reflexivity.
  - vm_compute. reflexivity.
  - destruct Hlist as (ts & Hts & Hids & _).
    + vm_compute. by eexists.
    + by exists ts.
Defined.

(** X13: on the store left by calls served one at a time from the empty
    store with fresh ids, the two ways of removing an id from a Todo Index
    agree: the cascade's [deleteTodo], which takes out the first occurrence,
    leaves the index that [delete_todo]'s filter would leave, without any
    occurrence of the id. *)
Theorem reachable_removals_agree reqs login projectId todoId ids :
  fresh_ids reqs ∅ →
  has ALLOWED_USERNAMES login = true →
  run reqs ∅ !! todoListKey login projectId = Some (VIds ids) →
  store_after (deleteTodo login projectId todoId (run reqs ∅))
    !! todoListKey login projectId
  = Some (VIds (filter (λ id, id ≠ todoId) ids))
  ∧ todoId ∉ filter (λ id, id ≠ todoId) ids.
Proof.
  intros Hfresh Hlogin Hids.
  pose proof (reachable_consistent reqs Hfresh) as (_ & _ & _ & Hdistinct).
  split.
  - rewrite (deleteTodo_run login projectId todoId (run reqs ∅) ids)
      by (unfold idsAt; by rewrite Hids).
    unfold store_after; simpl. rewrite lookup_insert_eq.
    rewrite spliceOut_filter_NoDup; [done|]. by eapply Hdistinct.
  - rewrite list_elem_of_filter. by intros [? _].
Qed.

Lemma reachable_removals_agree_witness :
  let reqs :=
    [mkRequest "ermao1688" (mkAmbient "p" "08:00" "08:00")
       (Tool_createProject "Launch" None);
     mkRequest "ermao1688" (mkAmbient "a" "09:00" "09:00")
       (Tool_create_todo "p" "one" None None);
     mkRequest "ermao1688" (mkAmbient "b" "09:01" "09:01")
       (Tool_create_todo "p" "two" None (Some high))] in
  store_after (deleteTodo "ermao1688" "p" "a" (run reqs ∅))
    !! todoListKey "ermao1688" "p"
  = Some (VIds ["b"]).
Proof.
  intros reqs.
  destruct (reachable_removals_agree reqs "ermao1688" "p" "a" ["a"; "b"])
    as [Hafter _].
  - vm_compute. repeat split; reflexivity.
  - vm_compute. reflexivity.
  - vm_compute. reflexivity.
  - rewrite Hafter. vm_compute. reflexivity.
Defined.

(** X14: when the calls before it were served one at a time from the
    empty store, each [create_todo] with an id that named no stored todo of
    the caller, and [delete_project] itself runs with no other call in
    between its store calls, then [delete_project] on an existing project
    leaves the project's Todo Index empty, whatever it listed, while every
    todo it listed is still stored and still answered by [get_todo].
    (Nothing is said of calls whose store operations interleave.) *)
Theorem reachable_delete_project_orphans reqs σ login projectId ids :
  served_in_turn reqs σ →
  fresh_ids reqs ∅ →
  has ALLOWED_USERNAMES login = true →
  is_Some (σ !! projectKey login projectId) →
  σ !! todoListKey login projectId = Some (VIds ids) →
  let σ' := store_after (delete_project login projectId σ) in
  σ' !! todoListKey login projectId = Some (VIds [])
  ∧ ∀ id, id ∈ ids →
      ∃ t, outcome (get_todo login id σ') = Ok (PTodo t)
           ∧ t_id t = id ∧ t_projectId t = projectId.
Proof.
  intros Hσ Hfresh Hlogin [v Hv] Hids σ'.
  unfold served_in_turn in Hσ. subst σ.
  pose proof (reachable_consistent reqs Hfresh) as (Htyped & _ & _ & _).
  pose proof (reachable_records reqs login projectId ids Hfresh Hlogin Hids)
    as Hrecords.
  destruct (delete_project_run login projectId (run reqs ∅) v ids [] Hv)
    as (σ1 & tr & Hrun & Hids1 & Hframe & Hsome & _).
  { unfold idsAt. by rewrite Hids. }
  { by apply typed_todoSlot. }
  { unfold idsAt. by rewrite (typed_projectList login). }
  assert (∀ k, k ≠ projectListKeyQuoted → k ≠ projectKey login projectId →
               σ' !! k = σ1 !! k) as Hlate.
  { intros k Hk1 Hk2. unfold σ'. rewrite Hrun. unfold store_after; simpl.
    rewrite lookup_insert_ne by done. by apply lookup_delete_ne. }
  split.
  - rewrite Hlate.
    2: apply todoListKey_not_projectListKeyQuoted.
    2: apply not_eq_sym, projectKey_not_own_todoListKey.
    destruct Hsome as [w Hw]; [by eexists|].
    unfold idsAt in Hids1. rewrite Hw in Hids1. rewrite Hw.
    destruct w as [ | |ids1]; simplify_eq. do 2 f_equal.
    rewrite resolve_ids.
    2: { apply Forall_forall. intros id Hid t Ht.
         destruct (Hrecords id Hid) as (t' & Ht' & Hname & _).
         unfold todoAt in Ht. rewrite Ht' in Ht. by simplify_eq. }
    rewrite (foldl_spliceOut_filter (λ id, is_Some (todoAt (run reqs ∅) login id))
               [] ids) by constructor.
    simpl. apply filter_none.
    intros id Hid Hnone. apply Hnone.
    destruct (Hrecords id Hid) as (t & Ht & _). unfold todoAt. rewrite Ht. by eexists.
  - intros id Hid. destruct (Hrecords id Hid) as (t & Ht & Hname & HP).
    exists t. split; [|done].
    unfold get_todo, bind, KV_get, outcome; simpl.
    rewrite Hlate.
    2: apply todoKey_not_projectListKeyQuoted.
    2: apply todoKey_not_projectKey.
    rewrite Hframe by apply todoKey_not_todoListKey. by rewrite Ht.
Qed.

Lemma reachable_delete_project_orphans_witness :
  let reqs :=
    [mkRequest "ermao1688" (mkAmbient "p" "08:00" "08:00")
       (Tool_createProject "Launch" None);
     mkRequest "ermao1688" (mkAmbient "a" "09:00" "09:00")
       (Tool_create_todo "p" "one" None None);
     mkRequest "ermao1688" (mkAmbient "b" "09:01" "09:01")
       (Tool_create_todo "p" "two" None (Some high))] in
  let σ' := store_after (delete_project "ermao1688" "p" (run reqs ∅)) in
  σ' !! todoListKey "ermao1688" "p" = Some (VIds [])
  ∧ ∃ t, outcome (get_todo "ermao1688" "b" σ') = Ok (PTodo t) ∧ t_id t = "b".
Proof.
  intros reqs σ'.
  destruct (reachable_delete_project_orphans reqs (run reqs ∅) "ermao1688" "p"
              ["a"; "b"])
    as [Hindex Hkept].
  - reflexivity.
  - vm_compute. repeat split; reflexivity.
  - vm_compute. reflexivity.
  - vm_compute. by eexists.
  - vm_compute. reflexivity.
  - split; [exact Hindex|].
    destruct (Hkept "b") as (t & Ht & Hid & _).
    + apply list_elem_of_In. simpl. auto.
    + by exists t.
Defined.

(** ** The status filters *)

Lemma status_partition (l : list Todo) :
  l ≡ₚ filter (λ t, t_status t = pending) l
       ++ filter (λ t, t_status t = in_progress) l
       ++ filter (λ t, t_status t = completed) l.
Proof.
  induction l as [|t l IH]; [done|].
  rewrite !filter_cons. destruct (t_status t) eqn:Hstatus; simpl.
  - by constructor.
  - rewrite <- Permutation_middle. by constructor.
  - rewrite app_assoc, <- Permutation_middle, <- app_assoc. by constructor.
Qed.

(** X15: on an existing project the three status filters of [list_todos]
    split its unfiltered answer: every todo of the unfiltered list shows
    under exactly one of [pending], [in_progress] and [completed], each
    filtered list is in the order of the unfiltered one, and ["all"]
    answers as no filter does. *)
Theorem list_todos_filters_partition login projectId σ v ids :
  σ !! projectKey login projectId = Some v →
  idsAt σ (todoListKey login projectId) = Some ids →
  Forall (todoSlot σ login) ids →
  ∃ every waiting going finished,
    outcome (list_todos login projectId None σ) = Ok (PTodos every)
    ∧ outcome (list_todos login projectId (Some all) σ) = Ok (PTodos every)
    ∧ outcome (list_todos login projectId (Some (only pending)) σ)
      = Ok (PTodos waiting)
    ∧ outcome (list_todos login projectId (Some (only in_progress)) σ)
      = Ok (PTodos going)
    ∧ outcome (list_todos login projectId (Some (only completed)) σ)
      = Ok (PTodos finished)
    ∧ every ≡ₚ waiting ++ going ++ finished
    ∧ length every = length waiting + length going + length finished
    ∧ waiting `sublist_of` every
    ∧ going `sublist_of` every
    ∧ finished `sublist_of` every.
Proof.
  intros Hproject Hids Hslots.
  eexists _, _, _, _.
  rewrite !(list_todos_run login projectId _ σ v ids Hproject Hids Hslots).
  unfold outcome; simpl. do 5 (split; [reflexivity|]).
  split; [apply status_partition|]. split.
  - rewrite (status_partition (resolve σ login ids)) at 1.
    rewrite !length_app. lia.
  - repeat split; apply sublist_filter.
Qed.

Lemma list_todos_filters_partition_witness :
  let a := mkTodo "a" "p" "one" "" pending medium "09:00" "09:00" in
  let b := mkTodo "b" "p" "two" "" completed low "09:01" "09:01" in
  let σ : KVNamespace :=
    {[ projectKey "ermao1688" "p" := VProject (mkProject "p" "Launch" "v1" "08:00" "08:00");
       todoListKey "ermao1688" "p" := VIds ["a"; "b"];
       todoKey "ermao1688" "a" := VTodo a;
       todoKey "ermao1688" "b" := VTodo b ]} in
  ∃ every waiting going finished : list Todo,
    outcome (list_todos "ermao1688" "p" None σ) = Ok (PTodos every)
    ∧ outcome (list_todos "ermao1688" "p" (Some (only pending)) σ) = Ok (PTodos waiting)
    ∧ length every = length waiting + length going + length finished.
Proof.
  intros a b σ.
  destruct (list_todos_filters_partition "ermao1688" "p" σ
              (VProject (mkProject "p" "Launch" "v1" "08:00" "08:00")) ["a"; "b"])
    as (every & waiting & going & finished & H1 & _ & H2 & _ & _ & _ & H3 & _).
  - vm_compute. reflexivity.
  - vm_compute. reflexivity.
  - repeat constructor; vm_compute; exact I.
  - by exists every, waiting, going, finished.
Defined.
